(** * RotaryEncoder: a quadrature decoder for two-pin rotary encoders

    Shallow embedding of [src/RotaryEncoder.h] and [src/RotaryEncoder.cpp]
    (the Arduino library by Matthias Hertel) and the properties of its
    state machine.

    Conventions of the embedding:
    - every fixed-width integer of the C++ code is a [Z]; the conversions
      that the C++ performs when a value is stored into an [int8_t],
      [int32_t] or [uint32_t] are written out ([to_int8], [to_int32],
      [to_uint32]), so signed 32-bit arithmetic wraps around two's
      complement and unsigned arithmetic is modulo 2^32;
    - [>>] on a signed value is the arithmetic shift ([Z.shiftr], which
      rounds towards minus infinity);
    - the two capabilities of the host, [digitalRead] and [millis], are
      arguments of the operations that call them;
    - a member function is a function from the object to the object after
      the call, paired with the returned value when there is one. *)

From Stdlib Require Import ZArith List Bool Lia.
From Stdlib Require Import SpecFloat.
Import ListNotations.
Local Open Scope Z_scope.

(** ** Fixed-width integers *)

Module Width.

Definition to_uint32 (x : Z) : Z := x mod 2 ^ 32.

Definition to_int32 (x : Z) : Z := (x + 2 ^ 31) mod 2 ^ 32 - 2 ^ 31.

Definition to_int8 (x : Z) : Z := (x + 2 ^ 7) mod 2 ^ 8 - 2 ^ 7.

Definition is_int32 (x : Z) : Prop := - 2 ^ 31 <= x < 2 ^ 31.

Definition is_uint32 (x : Z) : Prop := 0 <= x < 2 ^ 32.

Definition INT32_MIN : Z := - 2 ^ 31.

Definition INT32_MAX : Z := 2 ^ 31 - 1.

End Width.

Import Width.

(** ** The types of RotaryEncoder.h *)

(** [enum class Direction { NOROTATION = 0, CLOCKWISE = 1, COUNTERCLOCKWISE = -1 }] *)
Inductive Direction : Set :=
  | NOROTATION
  | CLOCKWISE
  | COUNTERCLOCKWISE.

Definition Direction_value (d : Direction) : Z :=
  match d with
  | NOROTATION => 0
  | CLOCKWISE => 1
  | COUNTERCLOCKWISE => -1
  end.

(** [enum class LatchMode { FOUR3 = 1, FOUR0 = 2, TWO03 = 3 }] *)
Inductive LatchMode : Set :=
  | FOUR3   (* 4 steps, latch at position 3 only *)
  | FOUR0   (* 4 steps, latch at position 0 *)
  | TWO03.  (* 2 steps, latch at position 0 and 3 *)

(** The value of [digitalRead]: Arduino's [LOW] (0) or [HIGH] (1). *)
Inductive PinLevel : Set :=
  | LOW
  | HIGH.

Definition level (l : PinLevel) : Z :=
  match l with
  | LOW => 0
  | HIGH => 1
  end.

(** The data members of [class RotaryEncoder]. *)
Record RotaryEncoder : Set := mkRotaryEncoder {
  _u08Pin1 : Z;
  _u08Pin2 : Z;
  _eMode : LatchMode;
  _i08OldState : Z;
  _i32Position : Z;
  _i32PositionExt : Z;
  _i32PositionExtPrev : Z;
  _u32PositionExtTime : Z;
  _u32PositionExtTimePrev : Z
}.

(** Assignments to one member. *)
Definition set_OldState (e : RotaryEncoder) (v : Z) : RotaryEncoder :=
  mkRotaryEncoder (_u08Pin1 e) (_u08Pin2 e) (_eMode e) v (_i32Position e)
    (_i32PositionExt e) (_i32PositionExtPrev e)
    (_u32PositionExtTime e) (_u32PositionExtTimePrev e).

Definition set_Position (e : RotaryEncoder) (v : Z) : RotaryEncoder :=
  mkRotaryEncoder (_u08Pin1 e) (_u08Pin2 e) (_eMode e) (_i08OldState e) v
    (_i32PositionExt e) (_i32PositionExtPrev e)
    (_u32PositionExtTime e) (_u32PositionExtTimePrev e).

Definition set_PositionExt (e : RotaryEncoder) (v : Z) : RotaryEncoder :=
  mkRotaryEncoder (_u08Pin1 e) (_u08Pin2 e) (_eMode e) (_i08OldState e)
    (_i32Position e) v (_i32PositionExtPrev e)
    (_u32PositionExtTime e) (_u32PositionExtTimePrev e).

Definition set_PositionExtPrev (e : RotaryEncoder) (v : Z) : RotaryEncoder :=
  mkRotaryEncoder (_u08Pin1 e) (_u08Pin2 e) (_eMode e) (_i08OldState e)
    (_i32Position e) (_i32PositionExt e) v
    (_u32PositionExtTime e) (_u32PositionExtTimePrev e).

Definition set_PositionExtTime (e : RotaryEncoder) (v : Z) : RotaryEncoder :=
  mkRotaryEncoder (_u08Pin1 e) (_u08Pin2 e) (_eMode e) (_i08OldState e)
    (_i32Position e) (_i32PositionExt e) (_i32PositionExtPrev e)
    v (_u32PositionExtTimePrev e).

Definition set_PositionExtTimePrev (e : RotaryEncoder) (v : Z) : RotaryEncoder :=
  mkRotaryEncoder (_u08Pin1 e) (_u08Pin2 e) (_eMode e) (_i08OldState e)
    (_i32Position e) (_i32PositionExt e) (_i32PositionExtPrev e)
    (_u32PositionExtTime e) v.

(** ** RotaryEncoder.cpp *)

Definition LATCH0 : Z := 0.
Definition LATCH3 : Z := 3.

(** [const int8_t ci08KNOBDIR[]] *)
Definition ci08KNOBDIR : list Z :=
  [ 0; -1; 1; 0;
    1; 0; 0; -1;
    -1; 0; 0; 1;
    0; 1; -1; 0 ].

(** [ci08KNOBDIR[i]].  The array has 16 elements; a read outside of it has
    no defined value in C++, the embedding gives 0 there, and
    [tick_index_in_range] below shows that [tick] never reads outside. *)
Definition knobdir (i : Z) : Z :=
  if (0 <=? i) && (i <? 16) then nth (Z.to_nat i) ci08KNOBDIR 0 else 0.

(** The constructor.  It assigns the pins, the mode, the old state and the
    three positions (its two calls of [pinMode] act on the board, not on
    the object); the two time stamps are left unassigned by the C++ code,
    so their initial contents [time0] and [timePrev0] are whatever the
    storage holds (zero for an object of static storage duration). *)
Definition RotaryEncoder_new (u08Pin1 u08Pin2 : Z) (mode : LatchMode)
    (time0 timePrev0 : Z) : RotaryEncoder :=
  {| _u08Pin1 := u08Pin1;
     _u08Pin2 := u08Pin2;
     _eMode := mode;
     _i08OldState := 3;
     _i32Position := 0;
     _i32PositionExt := 0;
     _i32PositionExtPrev := 0;
     _u32PositionExtTime := time0;
     _u32PositionExtTimePrev := timePrev0 |}.

(** [int32_t getPosition()] *)
Definition getPosition (e : RotaryEncoder) : Z * RotaryEncoder :=
  (_i32PositionExt e, e).

(** [Direction getDirection()] *)
Definition getDirection (e : RotaryEncoder) : Direction * RotaryEncoder :=
  if _i32PositionExtPrev e >? _i32PositionExt e then
    (COUNTERCLOCKWISE, set_PositionExtPrev e (_i32PositionExt e))
  else if _i32PositionExtPrev e <? _i32PositionExt e then
    (CLOCKWISE, set_PositionExtPrev e (_i32PositionExt e))
  else
    (NOROTATION, set_PositionExtPrev e (_i32PositionExt e)).

(** [void setPosition(int32_t newPosition)] *)
Definition setPosition (e : RotaryEncoder) (newPosition : Z) : RotaryEncoder :=
  match _eMode e with
  | FOUR3 | FOUR0 =>
      let e1 := set_Position e
                  (Z.lor (to_int32 (Z.shiftl newPosition 2))
                         (Z.land (_i32Position e) 3)) in
      let e2 := set_PositionExt e1 newPosition in
      set_PositionExtPrev e2 newPosition
  | TWO03 =>
      let e1 := set_Position e
                  (Z.lor (to_int32 (Z.shiftl newPosition 1))
                         (Z.land (_i32Position e) 1)) in
      let e2 := set_PositionExt e1 newPosition in
      set_PositionExtPrev e2 newPosition
  end.

(** The three assignments of a latch in [tick]:
    [_i32PositionExt = _i32Position >> n;
     _u32PositionExtTimePrev = _u32PositionExtTime;
     _u32PositionExtTime = millis();] *)
Definition latch (e : RotaryEncoder) (n : Z) (millis : Z) : RotaryEncoder :=
  let e1 := set_PositionExt e (Z.shiftr (_i32Position e) n) in
  let e2 := set_PositionExtTimePrev e1 (_u32PositionExtTime e1) in
  set_PositionExtTime e2 millis.

(** [int8_t thisState = sig1 | (sig2 << 1);] *)
Definition readState (sig1 sig2 : PinLevel) : Z :=
  to_int8 (Z.lor (level sig1) (Z.shiftl (level sig2) 1)).

(** [void tick(void)]: [sig1] and [sig2] are the results of the two calls
    of [digitalRead], [millis] the result of [millis()] (only read when a
    latch happens). *)
Definition tick (e : RotaryEncoder) (sig1 sig2 : PinLevel) (millis : Z)
    : RotaryEncoder :=
  let thisState := readState sig1 sig2 in
  if negb (_i08OldState e =? thisState) then
    let e1 := set_Position e
                (to_int32 (_i32Position e
                           + knobdir (Z.lor thisState
                                            (Z.shiftl (_i08OldState e) 2)))) in
    let e2 :=
      match _eMode e1 with
      | FOUR3 =>
          if thisState =? LATCH3 then latch e1 2 millis else e1
      | FOUR0 =>
          if thisState =? LATCH0 then latch e1 2 millis else e1
      | TWO03 =>
          if (thisState =? LATCH0) || (thisState =? LATCH3)
          then latch e1 1 millis else e1
      end in
    set_OldState e2 thisState
  else e.

(** [uint32_t getMillisBetweenRotations() const] *)
Definition getMillisBetweenRotations (e : RotaryEncoder) : Z * RotaryEncoder :=
  (to_uint32 (_u32PositionExtTime e - _u32PositionExtTimePrev e), e).

(** ** The floating-point expression of getRPM

    [60000.0 / ((float)(t * 20))] divides a [double] literal by a [float];
    the quotient is converted to the [uint32_t] that the function returns.
    IEEE 754 values and operations are those of [SpecFloat]. *)

(** The format of a C++ [double]: binary64 on 32-bit boards, binary32 on
    the 8-bit AVR boards (where [double] is [float]). *)
Inductive DoubleFormat : Set :=
  | Binary32
  | Binary64.

Definition double_prec (fmt : DoubleFormat) : Z :=
  match fmt with Binary32 => 24 | Binary64 => 53 end.

Definition double_emax (fmt : DoubleFormat) : Z :=
  match fmt with Binary32 => 128 | Binary64 => 1024 end.

(** [(float) x] for an unsigned integer [x]: rounding to binary32. *)
Definition float_of_uint32 (x : Z) : spec_float :=
  binary_normalize 24 128 x 0 false.

(** The literal [60000.0]. *)
Definition double_60000 (fmt : DoubleFormat) : spec_float :=
  binary_normalize (double_prec fmt) (double_emax fmt) 60000 0 false.

(** Conversion of a floating-point value to [uint32_t]: the value is
    truncated towards zero; C++ defines no result when the truncated value
    is not a [uint32_t] (an infinity, a NaN, a value out of range). *)
Definition uint32_of_double (f : spec_float) : option Z :=
  match f with
  | S754_zero _ => Some 0
  | S754_finite s m e =>
      let mag := Z.shiftl (Zpos m) e in
      let v := if s then - mag else mag in
      if (0 <=? v) && (v <? 2 ^ 32) then Some v else None
  | S754_infinity _ => None
  | S754_nan => None
  end.

(** Arduino's [max(a,b)] macro: [((a)>(b)?(a):(b))]. *)
Definition max (a b : Z) : Z := if a >? b then a else b.

(** The local [t] of [getRPM]. *)
Definition getRPM_t (e : RotaryEncoder) (millis : Z) : Z :=
  let timeBetweenLastPositions :=
    to_uint32 (_u32PositionExtTime e - _u32PositionExtTimePrev e) in
  let timeToLastPosition := to_uint32 (millis - _u32PositionExtTime e) in
  max timeBetweenLastPositions timeToLastPosition.

(** The quotient [60000.0 / ((float)(t * 20))] before its conversion. *)
Definition getRPM_quotient (fmt : DoubleFormat) (e : RotaryEncoder) (millis : Z)
    : spec_float :=
  let t := getRPM_t e millis in
  SFdiv (double_prec fmt) (double_emax fmt)
        (double_60000 fmt) (float_of_uint32 (to_uint32 (t * 20))).

(** [uint32_t getRPM()]: [None] when the C++ conversion of the quotient to
    [uint32_t] has no defined result. *)
Definition getRPM (fmt : DoubleFormat) (e : RotaryEncoder) (millis : Z)
    : option Z * RotaryEncoder :=
  (uint32_of_double (getRPM_quotient fmt e millis), e).

(** A run of [tick] calls, one triple (pin 1, pin 2, clock) per call. *)
Definition Sample : Set := (PinLevel * PinLevel * Z)%type.

Definition tick_sample (e : RotaryEncoder) (x : Sample) : RotaryEncoder :=
  let '(sig1, sig2, millis) := x in tick e sig1 sig2 millis.

Definition ticks (e : RotaryEncoder) (xs : list Sample) : RotaryEncoder :=
  fold_left tick_sample xs e.

(** ** Vocabulary of the specification *)

(** The ranges of the members' types, and of the old state: the 2-bit
    combination of the two pins. *)
Record wf (e : RotaryEncoder) : Prop := mk_wf {
  wf_OldState : 0 <= _i08OldState e <= 3;
  wf_Position : is_int32 (_i32Position e);
  wf_PositionExt : is_int32 (_i32PositionExt e);
  wf_PositionExtPrev : is_int32 (_i32PositionExtPrev e);
  wf_PositionExtTime : is_uint32 (_u32PositionExtTime e);
  wf_PositionExtTimePrev : is_uint32 (_u32PositionExtTimePrev e)
}.

(** The transition table as the specification lists it,
    [index (prevState<<2 | curState) : delta]:
    0:0 1:-1 2:+1 3:0 / 4:+1 5:0 6:0 7:-1 / 8:-1 9:0 10:0 11:+1 /
    12:0 13:+1 14:-1 15:0. *)
Definition table_delta (prevState curState : Z) : Z :=
  match Z.lor (Z.shiftl prevState 2) curState with
  | 1 => -1  | 2 => 1
  | 4 => 1   | 7 => -1
  | 8 => -1  | 11 => 1
  | 13 => 1  | 14 => -1
  | _ => 0
  end.

(** The shift amount of a mode: 2 for the four-step modes, 1 for the
    two-step mode. *)
Definition shift_of (mode : LatchMode) : Z :=
  match mode with
  | FOUR3 => 2
  | FOUR0 => 2
  | TWO03 => 1
  end.

(** The latch condition of a mode on a raw state. *)
Definition latch_condition (mode : LatchMode) (state : Z) : bool :=
  match mode with
  | FOUR3 => state =? 3
  | FOUR0 => state =? 0
  | TWO03 => (state =? 0) || (state =? 3)
  end.

(** The external position is the internal one shifted by the mode's shift. *)
Definition synced (e : RotaryEncoder) : Prop :=
  _i32PositionExt e = Z.shiftr (_i32Position e) (shift_of (_eMode e)).

(** A transition that changes exactly one of the two bits. *)
Definition single_bit_step (prevState curState : Z) : bool :=
  let x := Z.lxor prevState curState in (x =? 1) || (x =? 2).

(** A transition that flips both bits at once: (0,3), (3,0), (1,2), (2,1). *)
Definition both_bits_flip (prevState curState : Z) : bool :=
  ((prevState =? 0) && (curState =? 3)) || ((prevState =? 3) && (curState =? 0))
  || ((prevState =? 1) && (curState =? 2)) || ((prevState =? 2) && (curState =? 1)).

(** [newPosition << shift] is representable in an [int32_t]. *)
Definition fits_shifted (mode : LatchMode) (newPosition : Z) : Prop :=
  - 2 ^ (31 - shift_of mode) <= newPosition < 2 ^ (31 - shift_of mode).

(** ** Concrete runs used as examples

    Pin levels of the four raw states: 0 is (LOW, LOW), 1 is (HIGH, LOW),
    2 is (LOW, HIGH) and 3 is (HIGH, HIGH). *)

(** One detent turned in the counting-up direction, from raw state 0 back
    to raw state 0 through 2, 3 and 1, every sample taken at [millis]. *)
Definition up_cycle_from_0 (millis : Z) : list Sample :=
  [ (LOW, HIGH, millis); (HIGH, HIGH, millis);
    (HIGH, LOW, millis); (LOW, LOW, millis) ].

(** An object of static storage duration in the default mode, turned from
    its rest state 3 through 1 to the latch state 0. *)
Definition at_latch_0 : RotaryEncoder :=
  ticks (RotaryEncoder_new 2 3 FOUR0 0 0) [ (HIGH, LOW, 1); (LOW, LOW, 2) ].

(** A contact that bounces between raw states 3 and 1, in the mode that
    latches at 3: the object latches at [millis1] and at [millis2]. *)
Definition bounce_3_1 (millis1 millis2 : Z) : RotaryEncoder :=
  ticks (RotaryEncoder_new 2 3 FOUR3 0 0)
    [ (HIGH, LOW, millis1); (HIGH, HIGH, millis1);
      (HIGH, LOW, millis2); (HIGH, HIGH, millis2) ].

(** ** Runs of calls *)

(** One call of a member function, with what the call reads from the
    host. *)
Inductive Call : Set :=
  | CallTick (sig1 sig2 : PinLevel) (millis : Z)
  | CallSetPosition (newPosition : Z)
  | CallGetPosition
  | CallGetDirection
  | CallGetMillisBetweenRotations
  | CallGetRPM (fmt : DoubleFormat) (millis : Z).

(** The object after a call. *)
Definition call (e : RotaryEncoder) (c : Call) : RotaryEncoder :=
  match c with
  | CallTick sig1 sig2 millis => tick e sig1 sig2 millis
  | CallSetPosition newPosition => setPosition e newPosition
  | CallGetPosition => snd (getPosition e)
  | CallGetDirection => snd (getDirection e)
  | CallGetMillisBetweenRotations => snd (getMillisBetweenRotations e)
  | CallGetRPM fmt millis => snd (getRPM fmt e millis)
  end.

Definition calls (e : RotaryEncoder) (cs : list Call) : RotaryEncoder :=
  fold_left call cs e.

(** The arguments of a call are of their C++ types: [millis()] is a
    [uint32_t], [newPosition] an [int32_t]. *)
Definition call_typed (c : Call) : Prop :=
  match c with
  | CallTick _ _ millis => is_uint32 millis
  | CallSetPosition newPosition => is_int32 newPosition
  | CallGetRPM _ millis => is_uint32 millis
  | _ => True
  end.

(** The sum of the table entries along a run of samples that starts in
    raw state [prevState]. *)
Fixpoint path_delta (prevState : Z) (xs : list Sample) : Z :=
  match xs with
  | [] => 0
  | (sig1, sig2, _) :: rest =>
      table_delta prevState (readState sig1 sig2)
      + path_delta (readState sig1 sig2) rest
  end.

(** The raw state after a run of samples that starts in [prevState]. *)
Fixpoint last_state (prevState : Z) (xs : list Sample) : Z :=
  match xs with
  | [] => prevState
  | (sig1, sig2, _) :: rest => last_state (readState sig1 sig2) rest
  end.

(** Every sample of the run repeats the state before it or is one bit
    away from it. *)
Fixpoint quadrature_run (prevState : Z) (xs : list Sample) : bool :=
  match xs with
  | [] => true
  | (sig1, sig2, _) :: rest =>
      ((readState sig1 sig2 =? prevState)
       || single_bit_step prevState (readState sig1 sig2))
      && quadrature_run (readState sig1 sig2) rest
  end.

(** The place of a raw state in the cycle 3, 1, 0, 2 that the source
    gives for the counting-up direction (positions: [3] 1 0 2 [3] ...). *)
Definition phase (state : Z) : Z :=
  match state with
  | 3 => 0
  | 1 => 1
  | 0 => 2
  | 2 => 3
  | _ => 0
  end.

(** One detent from raw state 3 back to raw state 3, counting up (through
    1, 0, 2) and counting down (through 2, 0, 1); the four samples are
    taken at the clock values [m]. *)
Definition up_cycle_from_3 (m : Z * Z * Z * Z) : list Sample :=
  let '(m1, m2, m3, m4) := m in
  [ (HIGH, LOW, m1); (LOW, LOW, m2); (LOW, HIGH, m3); (HIGH, HIGH, m4) ].

Definition down_cycle_from_3 (m : Z * Z * Z * Z) : list Sample :=
  let '(m1, m2, m3, m4) := m in
  [ (LOW, HIGH, m1); (LOW, LOW, m2); (HIGH, LOW, m3); (HIGH, HIGH, m4) ].

(** A detent turned from raw state 3 back to it: [true] counts up,
    [false] counts down. *)
Definition detent_from_3 (d : bool * (Z * Z * Z * Z)) : list Sample :=
  if fst d then up_cycle_from_3 (snd d) else down_cycle_from_3 (snd d).

(** Detents turned up minus detents turned down. *)
Fixpoint net_detents (ds : list (bool * (Z * Z * Z * Z))) : Z :=
  match ds with
  | [] => 0
  | d :: rest => (if fst d then 1 else -1) + net_detents rest
  end.

(** The call leaves the previous external position alone: every call but
    [setPosition] and [getDirection]. *)
Definition keeps_reference (c : Call) : bool :=
  match c with
  | CallSetPosition _ => false
  | CallGetDirection => false
  | _ => true
  end.

(** The clock values at which the calls of a run of [tick] latch, oldest
    first: a call latches when its sample differs from the old state and
    satisfies the latch condition of the mode. *)
Fixpoint latch_times (e : RotaryEncoder) (xs : list Sample) : list Z :=
  match xs with
  | [] => []
  | (sig1, sig2, millis) :: rest =>
      (if negb (_i08OldState e =? readState sig1 sig2)
          && latch_condition (_eMode e) (readState sig1 sig2)
       then [millis] else [])
      ++ latch_times (tick e sig1 sig2 millis) rest
  end.

(** A new last time stamp pushes the former last one to the prior place. *)
Definition push_time (stamps : Z * Z) (millis : Z) : Z * Z :=
  (millis, fst stamps).

(** What every run of single-bit steps keeps, from construction on: the
    internal position is at the phase of the old state modulo 4, and at a
    latch state of the mode the external position is the shifted internal
    one. *)
Record in_step (e : RotaryEncoder) : Prop := mk_in_step {
  in_step_OldState : 0 <= _i08OldState e <= 3;
  in_step_Position : is_int32 (_i32Position e);
  in_step_phase : (_i32Position e - phase (_i08OldState e)) mod 4 = 0;
  in_step_latched :
    latch_condition (_eMode e) (_i08OldState e) = true -> synced e
}.

(** ** Fixed-width arithmetic *)

Lemma to_int32_range (x : Z) : is_int32 (to_int32 x).
Proof.
  unfold is_int32, to_int32.
  pose proof (Z.mod_pos_bound (x + 2 ^ 31) (2 ^ 32) ltac:(lia)). lia.
Qed.

Lemma to_int32_id (x : Z) : is_int32 x -> to_int32 x = x.
Proof.
  unfold is_int32, to_int32. intros H.
  rewrite Z.mod_small by lia. lia.
Qed.

Lemma to_int32_add_l (x y : Z) : to_int32 (to_int32 x + y) = to_int32 (x + y).
Proof.
  unfold to_int32.
  replace ((x + 2 ^ 31) mod 2 ^ 32 - 2 ^ 31 + y + 2 ^ 31)
    with ((x + 2 ^ 31) mod 2 ^ 32 + y) by lia.
  rewrite Zplus_mod_idemp_l. f_equal. f_equal. lia.
Qed.

Lemma to_int32_mod (x : Z) : to_int32 x mod 2 ^ 32 = x mod 2 ^ 32.
Proof.
  unfold to_int32.
  rewrite Zminus_mod_idemp_l.
  f_equal. lia.
Qed.

Lemma to_int32_testbit (x i : Z) :
  0 <= i < 32 -> Z.testbit (to_int32 x) i = Z.testbit x i.
Proof.
  intros Hi.
  rewrite <- (Z.mod_pow2_bits_low (to_int32 x) 32 i) by lia.
  rewrite to_int32_mod.
  apply Z.mod_pow2_bits_low. lia.
Qed.

Lemma to_uint32_range (x : Z) : is_uint32 (to_uint32 x).
Proof. unfold is_uint32, to_uint32. apply Z.mod_pos_bound. lia. Qed.

(** ** The sampled state and the table index *)

Lemma readState_cases (sig1 sig2 : PinLevel) :
  readState sig1 sig2 = level sig1 + 2 * level sig2.
Proof. destruct sig1, sig2; reflexivity. Qed.

Lemma readState_range (sig1 sig2 : PinLevel) : 0 <= readState sig1 sig2 <= 3.
Proof. destruct sig1, sig2; vm_compute; split; discriminate. Qed.

Lemma state_cases (x : Z) : 0 <= x <= 3 -> x = 0 \/ x = 1 \/ x = 2 \/ x = 3.
Proof. lia. Qed.

Ltac case_state H :=
  destruct (state_cases _ H) as [?|[?|[?|?]]].

(** [tick] reads the table inside its bounds. *)
Lemma tick_index_in_range (e : RotaryEncoder) (sig1 sig2 : PinLevel) :
  0 <= _i08OldState e <= 3 ->
  0 <= Z.lor (readState sig1 sig2) (Z.shiftl (_i08OldState e) 2) < 16.
Proof.
  intros H. case_state H; destruct sig1, sig2;
    match goal with Hx : _i08OldState e = _ |- _ => rewrite Hx end;
    vm_compute; split; congruence.
Qed.

(** The table of the code is the table of the specification. *)
Lemma knobdir_table_delta (prevState curState : Z) :
  0 <= prevState <= 3 -> 0 <= curState <= 3 ->
  knobdir (Z.lor curState (Z.shiftl prevState 2)) = table_delta prevState curState.
Proof.
  intros Hp Hc. case_state Hp; case_state Hc; subst; reflexivity.
Qed.

(** ** What one call of [tick] does to each member *)

(** [tick] with its [switch] folded into the mode's latch condition and
    shift amount. *)
Lemma tick_eq (e : RotaryEncoder) (sig1 sig2 : PinLevel) (millis : Z) :
  tick e sig1 sig2 millis =
    let cur := readState sig1 sig2 in
    if _i08OldState e =? cur then e
    else
      let e1 := set_Position e
                  (to_int32 (_i32Position e
                             + knobdir (Z.lor cur (Z.shiftl (_i08OldState e) 2)))) in
      set_OldState
        (if latch_condition (_eMode e) cur
         then latch e1 (shift_of (_eMode e)) millis
         else e1)
        cur.
Proof.
  destruct e as [p1 p2 mode old pos ext prev time timePrev].
  unfold tick, latch_condition, shift_of, set_Position, LATCH0, LATCH3.
  cbv beta iota zeta delta [_eMode _i08OldState _i32Position].
  destruct (old =? readState sig1 sig2); [reflexivity|].
  destruct mode; reflexivity.
Qed.

Section Tick.

Variable e : RotaryEncoder.
Variables sig1 sig2 : PinLevel.
Variable millis : Z.

Let cur := readState sig1 sig2.
Let e' := tick e sig1 sig2 millis.

Lemma tick_unchanged : cur = _i08OldState e -> e' = e.
Proof.
  unfold e', cur. rewrite tick_eq. intros H.
  cbv zeta. rewrite <- H, Z.eqb_refl. reflexivity.
Qed.

Lemma tick_Pin1 : _u08Pin1 e' = _u08Pin1 e.
Proof.
  unfold e'. rewrite tick_eq. cbv zeta.
  destruct (_i08OldState e =? _); [reflexivity|].
  destruct (latch_condition _ _); reflexivity.
Qed.

Lemma tick_Pin2 : _u08Pin2 e' = _u08Pin2 e.
Proof.
  unfold e'. rewrite tick_eq. cbv zeta.
  destruct (_i08OldState e =? _); [reflexivity|].
  destruct (latch_condition _ _); reflexivity.
Qed.

Lemma tick_Mode : _eMode e' = _eMode e.
Proof.
  unfold e'. rewrite tick_eq. cbv zeta.
  destruct (_i08OldState e =? _); [reflexivity|].
  destruct (latch_condition _ _); reflexivity.
Qed.

Lemma tick_PositionExtPrev : _i32PositionExtPrev e' = _i32PositionExtPrev e.
Proof.
  unfold e'. rewrite tick_eq. cbv zeta.
  destruct (_i08OldState e =? _); [reflexivity|].
  destruct (latch_condition _ _); reflexivity.
Qed.

Lemma tick_OldState : _i08OldState e' = cur.
Proof.
  unfold e', cur. rewrite tick_eq. cbv zeta.
  destruct (Z.eqb_spec (_i08OldState e) (readState sig1 sig2)) as [H|H];
    [exact H | reflexivity].
Qed.

Hypothesis changed : cur <> _i08OldState e.

Let pos' :=
  to_int32 (_i32Position e + knobdir (Z.lor cur (Z.shiftl (_i08OldState e) 2))).

Lemma tick_changed_eq :
  e' = set_OldState
         (if latch_condition (_eMode e) cur
          then latch (set_Position e pos') (shift_of (_eMode e)) millis
          else set_Position e pos')
         cur.
Proof.
  unfold e', pos', cur. rewrite tick_eq. cbv zeta.
  destruct (Z.eqb_spec (_i08OldState e) (readState sig1 sig2)) as [H|H].
  - exfalso. apply changed. unfold cur. symmetry. exact H.
  - reflexivity.
Qed.

Lemma tick_Position : _i32Position e' = pos'.
Proof.
  rewrite tick_changed_eq. destruct (latch_condition _ _); reflexivity.
Qed.

Lemma tick_PositionExt :
  _i32PositionExt e' =
    if latch_condition (_eMode e) cur
    then Z.shiftr pos' (shift_of (_eMode e))
    else _i32PositionExt e.
Proof.
  rewrite tick_changed_eq. destruct (latch_condition _ _); reflexivity.
Qed.

Lemma tick_PositionExtTime :
  _u32PositionExtTime e' =
    if latch_condition (_eMode e) cur then millis else _u32PositionExtTime e.
Proof.
  rewrite tick_changed_eq. destruct (latch_condition _ _); reflexivity.
Qed.

Lemma tick_PositionExtTimePrev :
  _u32PositionExtTimePrev e' =
    if latch_condition (_eMode e) cur
    then _u32PositionExtTime e
    else _u32PositionExtTimePrev e.
Proof.
  rewrite tick_changed_eq. destruct (latch_condition _ _); reflexivity.
Qed.

End Tick.

(** ** The members stay within their types *)

Lemma wf_new (u08Pin1 u08Pin2 : Z) (mode : LatchMode) (time0 timePrev0 : Z) :
  is_uint32 time0 -> is_uint32 timePrev0 ->
  wf (RotaryEncoder_new u08Pin1 u08Pin2 mode time0 timePrev0).
Proof.
  intros H0 H1. constructor; cbn; try assumption;
    unfold is_int32; lia.
Qed.

Lemma shiftr_int32 (x n : Z) : 0 <= n -> is_int32 x -> is_int32 (Z.shiftr x n).
Proof.
  unfold is_int32. intros Hn [Hlo Hhi].
  rewrite Z.shiftr_div_pow2 by assumption.
  assert (Hp : 0 < 2 ^ n) by (apply Z.pow_pos_nonneg; lia).
  split.
  - apply Z.div_le_lower_bound; [assumption|]. nia.
  - apply Z.div_lt_upper_bound; [assumption|]. nia.
Qed.

Lemma wf_tick (e : RotaryEncoder) (sig1 sig2 : PinLevel) (millis : Z) :
  is_uint32 millis -> wf e -> wf (tick e sig1 sig2 millis).
Proof.
  intros Hm [Ho Hp Hx Hv Ht Hq].
  destruct (Z.eq_dec (readState sig1 sig2) (_i08OldState e)) as [Heq|Hne].
  - rewrite tick_unchanged by exact Heq. constructor; assumption.
  - constructor.
    + rewrite tick_OldState. apply readState_range.
    + rewrite tick_Position by exact Hne. apply to_int32_range.
    + rewrite tick_PositionExt by exact Hne.
      destruct (latch_condition _ _); [|assumption].
      apply shiftr_int32; [destruct (_eMode e); cbn; lia | apply to_int32_range].
    + rewrite tick_PositionExtPrev. assumption.
    + rewrite tick_PositionExtTime by exact Hne.
      destruct (latch_condition _ _); assumption.
    + rewrite tick_PositionExtTimePrev by exact Hne.
      destruct (latch_condition _ _); assumption.
Qed.

Lemma wf_getDirection (e : RotaryEncoder) : wf e -> wf (snd (getDirection e)).
Proof.
  intros [Ho Hp Hx Hv Ht Hq]. unfold getDirection.
  destruct (_ >? _); [|destruct (_ <? _)]; constructor; cbn; assumption.
Qed.

(** ** tick *)

(** C5.  When the sampled state equals the stored old state, [tick] leaves
    the whole object as it was: the old state, the internal, external and
    previous external positions and both time stamps (and the pins and the
    mode) are unchanged. *)
Theorem tick_same_state_no_change
    (e : RotaryEncoder) (sig1 sig2 : PinLevel) (millis : Z) :
  readState sig1 sig2 = _i08OldState e ->
  tick e sig1 sig2 millis = e.
Proof. intros H. apply tick_unchanged. exact H. Qed.

Lemma tick_same_state_no_change_witness :
  readState HIGH HIGH = _i08OldState (RotaryEncoder_new 2 3 FOUR0 0 0)
  /\ tick (RotaryEncoder_new 2 3 FOUR0 0 0) HIGH HIGH 42
     = RotaryEncoder_new 2 3 FOUR0 0 0.
Proof.
  split; [reflexivity|].
  apply (tick_same_state_no_change (RotaryEncoder_new 2 3 FOUR0 0 0) HIGH HIGH 42).
  reflexivity.
Defined.

(** C1.  One call of [tick] changes the internal position by the entry of
    the transition table for (old state, sampled state) and by nothing
    else: the new value is the old one plus that entry, in 32-bit signed
    arithmetic, hence exactly old + entry whenever that sum is an
    [int32_t].  The entry read by the code, at index
    [curState | (rawState << 2)] of [ci08KNOBDIR], is the one the
    specification's table gives, and the table is
    0,-1,+1,0, +1,0,0,-1, -1,0,0,+1, 0,+1,-1,0.  This covers all 16 pairs:
    on the 4 pairs with equal states [tick] does nothing and the table
    entry is 0. *)
Theorem tick_position_delta
    (e : RotaryEncoder) (sig1 sig2 : PinLevel) (millis : Z) :
  wf e ->
  let prev := _i08OldState e in
  let cur := readState sig1 sig2 in
  let delta := table_delta prev cur in
  map (fun k => table_delta (Z.of_nat k / 4) (Z.of_nat k mod 4)) (seq 0 16)
  = [0; -1; 1; 0;  1; 0; 0; -1;  -1; 0; 0; 1;  0; 1; -1; 0]
  /\ ci08KNOBDIR = [0; -1; 1; 0;  1; 0; 0; -1;  -1; 0; 0; 1;  0; 1; -1; 0]
  /\ knobdir (Z.lor cur (Z.shiftl prev 2)) = delta
  /\ (- 1 <= delta <= 1)
  /\ _i32Position (tick e sig1 sig2 millis) = to_int32 (_i32Position e + delta)
  /\ (is_int32 (_i32Position e + delta) ->
      _i32Position (tick e sig1 sig2 millis) = _i32Position e + delta)
  /\ (cur = prev -> delta = 0).
Proof.
  intros Hwf prev cur delta.
  assert (Hk : knobdir (Z.lor cur (Z.shiftl prev 2)) = delta)
    by (apply knobdir_table_delta; [apply Hwf | apply readState_range]).
  assert (Hd : cur = prev -> delta = 0).
  { intros Heq. unfold delta. rewrite Heq.
    destruct (state_cases prev (wf_OldState e Hwf)) as [H|[H|[H|H]]];
      rewrite H; reflexivity. }
  assert (Hpos : _i32Position (tick e sig1 sig2 millis)
                 = to_int32 (_i32Position e + delta)).
  { destruct (Z.eq_dec cur prev) as [Heq|Hne].
    - rewrite tick_unchanged by exact Heq.
      rewrite (Hd Heq), Z.add_0_r, to_int32_id; [reflexivity | apply Hwf].
    - rewrite tick_Position by exact Hne. fold cur prev. rewrite Hk. reflexivity. }
  assert (Hb : - 1 <= delta <= 1).
  { unfold delta, cur.
    destruct (state_cases prev (wf_OldState e Hwf)) as [H|[H|[H|H]]];
      rewrite H; destruct sig1, sig2; vm_compute; split; discriminate. }
  split; [reflexivity|]. split; [reflexivity|].
  repeat split; try assumption; try apply Hb.
  intros Hr. rewrite Hpos. apply to_int32_id. exact Hr.
Qed.

Lemma tick_position_delta_witness :
  wf (RotaryEncoder_new 2 3 FOUR0 0 0)
  /\ _i32Position (tick (RotaryEncoder_new 2 3 FOUR0 0 0) HIGH LOW 10) = 1.
Proof.
  assert (Hwf : wf (RotaryEncoder_new 2 3 FOUR0 0 0))
    by (apply wf_new; unfold is_uint32; lia).
  split; [exact Hwf|].
  destruct (tick_position_delta (RotaryEncoder_new 2 3 FOUR0 0 0) HIGH LOW 10 Hwf)
    as (_ & _ & _ & _ & H & _).
  rewrite H. reflexivity.
Defined.

(** ** getDirection *)

(** C3.  [getDirection] returns CLOCKWISE when the external position is
    greater than the previous external position, COUNTERCLOCKWISE when it
    is smaller and NOROTATION when they are equal; in each of the three
    cases it stores the external position as the previous one and touches
    no other member (external and internal position, old state, time
    stamps, pins, mode); a second call right after the first returns
    NOROTATION. *)
Theorem getDirection_spec (e : RotaryEncoder) :
  let d := fst (getDirection e) in
  let e' := snd (getDirection e) in
  (_i32PositionExt e > _i32PositionExtPrev e <-> d = CLOCKWISE)
  /\ (_i32PositionExt e < _i32PositionExtPrev e <-> d = COUNTERCLOCKWISE)
  /\ (_i32PositionExt e = _i32PositionExtPrev e <-> d = NOROTATION)
  /\ e' = set_PositionExtPrev e (_i32PositionExt e)
  /\ _i32PositionExtPrev e' = _i32PositionExt e
  /\ _i32PositionExt e' = _i32PositionExt e
  /\ _i32Position e' = _i32Position e
  /\ _i08OldState e' = _i08OldState e
  /\ _u32PositionExtTime e' = _u32PositionExtTime e
  /\ _u32PositionExtTimePrev e' = _u32PositionExtTimePrev e
  /\ _eMode e' = _eMode e
  /\ fst (getDirection e') = NOROTATION.
Proof.
  cbv zeta.
  assert (He : snd (getDirection e) = set_PositionExtPrev e (_i32PositionExt e)).
  { unfold getDirection. destruct (_ >? _); [|destruct (_ <? _)]; reflexivity. }
  rewrite He.
  assert (Hd : (_i32PositionExt e > _i32PositionExtPrev e
                <-> fst (getDirection e) = CLOCKWISE)
            /\ (_i32PositionExt e < _i32PositionExtPrev e
                <-> fst (getDirection e) = COUNTERCLOCKWISE)
            /\ (_i32PositionExt e = _i32PositionExtPrev e
                <-> fst (getDirection e) = NOROTATION)).
  { unfold getDirection.
    destruct (Z.gtb_spec (_i32PositionExtPrev e) (_i32PositionExt e)) as [H|H];
      [|destruct (Z.ltb_spec (_i32PositionExtPrev e) (_i32PositionExt e)) as [H'|H']];
      cbn [fst]; repeat split; intros; try discriminate; try lia; reflexivity. }
  destruct Hd as (H1 & H2 & H3).
  repeat split; try reflexivity; try apply H1; try apply H2; try apply H3.
  unfold getDirection. cbn [_i32PositionExtPrev _i32PositionExt set_PositionExtPrev].
  rewrite Z.gtb_ltb, Z.ltb_irrefl. reflexivity.
Qed.

(** ** setPosition *)

Lemma setPosition_eq (e : RotaryEncoder) (newPosition : Z) :
  setPosition e newPosition =
    set_PositionExtPrev
      (set_PositionExt
         (set_Position e
            (Z.lor (to_int32 (Z.shiftl newPosition (shift_of (_eMode e))))
                   (Z.land (_i32Position e) (2 ^ shift_of (_eMode e) - 1))))
         newPosition)
      newPosition.
Proof. unfold setPosition. destruct (_eMode e); reflexivity. Qed.

Lemma shift_of_cases (mode : LatchMode) : shift_of mode = 1 \/ shift_of mode = 2.
Proof. destruct mode; cbn; auto. Qed.

Lemma land_ones_testbit_high (x n i : Z) :
  0 <= n <= i -> Z.testbit (Z.land x (2 ^ n - 1)) i = false.
Proof.
  intros H. replace (2 ^ n - 1) with (Z.ones n)
    by (rewrite Z.ones_equiv; lia).
  rewrite Z.land_spec, Z.ones_spec_high by lia. apply andb_false_r.
Qed.

Lemma land_ones_testbit_low (x n i : Z) :
  0 <= i < n -> Z.testbit (Z.land x (2 ^ n - 1)) i = Z.testbit x i.
Proof.
  intros H. replace (2 ^ n - 1) with (Z.ones n)
    by (rewrite Z.ones_equiv; lia).
  rewrite Z.land_spec, Z.ones_spec_low by lia. apply andb_true_r.
Qed.

Lemma setPosition_Position_int32 (e : RotaryEncoder) (newPosition : Z) :
  is_int32 (_i32Position (setPosition e newPosition)).
Proof.
  rewrite setPosition_eq. cbn [_i32Position set_PositionExtPrev set_PositionExt set_Position].
  set (s := shift_of (_eMode e)).
  assert (Hs : s = 1 \/ s = 2) by apply shift_of_cases.
  set (a := to_int32 (Z.shiftl newPosition s)).
  set (b := Z.land (_i32Position e) (2 ^ s - 1)).
  assert (Ha : is_int32 a) by apply to_int32_range.
  (* the result has the bits of [a] from bit 31 upwards *)
  assert (Hhi : Z.shiftr (Z.lor a b) 31 = Z.shiftr a 31).
  { rewrite Z.shiftr_lor. apply Z.bits_inj'. intros i Hi.
    rewrite Z.lor_spec, (Z.shiftr_spec b) by lia.
    unfold b. rewrite land_ones_testbit_high by lia. apply orb_false_r. }
  unfold is_int32 in *.
  rewrite !Z.shiftr_div_pow2 in Hhi by lia.
  assert (Hq : -1 <= a / 2 ^ 31 < 1).
  { split; [apply Z.div_le_lower_bound | apply Z.div_lt_upper_bound]; lia. }
  rewrite <- Hhi in Hq.
  pose proof (Z.div_mod (Z.lor a b) (2 ^ 31) ltac:(lia)) as Hdm.
  pose proof (Z.mod_pos_bound (Z.lor a b) (2 ^ 31) ltac:(lia)) as Hmb.
  lia.
Qed.

Lemma wf_setPosition (e : RotaryEncoder) (newPosition : Z) :
  is_int32 newPosition -> wf e -> wf (setPosition e newPosition).
Proof.
  intros Hn [Ho Hp Hx Hv Ht Hq]. constructor;
    try apply setPosition_Position_int32;
    rewrite setPosition_eq; cbn; assumption.
Qed.

Lemma lor_shifted_low (a p s : Z) :
  0 <= s ->
  Z.lor (a * 2 ^ s) (Z.land p (2 ^ s - 1)) = a * 2 ^ s + p mod 2 ^ s.
Proof.
  intros Hs.
  assert (Hl : Z.land p (2 ^ s - 1) = p mod 2 ^ s).
  { replace (2 ^ s - 1) with (Z.ones s) by (rewrite Z.ones_equiv; lia).
    apply Z.land_ones. exact Hs. }
  assert (H0 : Z.land (a * 2 ^ s) (Z.land p (2 ^ s - 1)) = 0).
  { apply Z.bits_inj'. intros i Hi.
    rewrite Z.land_spec, Z.bits_0.
    destruct (Z.lt_ge_cases i s) as [Hlt|Hge].
    - rewrite Z.mul_pow2_bits_low by lia. reflexivity.
    - rewrite land_ones_testbit_high by lia. apply andb_false_r. }
  rewrite <- (Z.lxor_lor _ _ H0), <- (Z.add_nocarry_lxor _ _ H0), Hl.
  reflexivity.
Qed.

Lemma setPosition_Position_fits (e : RotaryEncoder) (newPosition : Z) :
  fits_shifted (_eMode e) newPosition ->
  _i32Position (setPosition e newPosition)
  = newPosition * 2 ^ shift_of (_eMode e)
    + _i32Position e mod 2 ^ shift_of (_eMode e).
Proof.
  intros Hf. rewrite setPosition_eq.
  cbn [_i32Position set_PositionExtPrev set_PositionExt set_Position].
  assert (Hs : 0 <= shift_of (_eMode e)) by (destruct (_eMode e); cbn; lia).
  rewrite Z.shiftl_mul_pow2 by exact Hs.
  rewrite to_int32_id; [apply lor_shifted_low; exact Hs|].
  unfold fits_shifted, is_int32 in *.
  destruct (_eMode e); cbn [shift_of] in *; lia.
Qed.

Lemma setPosition_synced (e : RotaryEncoder) (newPosition : Z) :
  fits_shifted (_eMode e) newPosition -> synced (setPosition e newPosition).
Proof.
  intros Hf. unfold synced.
  rewrite (setPosition_Position_fits e newPosition Hf).
  rewrite setPosition_eq.
  cbn [_i32PositionExt _eMode set_PositionExtPrev set_PositionExt set_Position].
  set (s := shift_of (_eMode e)).
  assert (Hs : 0 <= s) by (unfold s; destruct (_eMode e); cbn; lia).
  assert (Hp : 0 < 2 ^ s) by (apply Z.pow_pos_nonneg; lia).
  rewrite Z.shiftr_div_pow2 by exact Hs.
  rewrite Z.div_add_l by lia.
  rewrite Z.div_small by (apply Z.mod_pos_bound; exact Hp).
  lia.
Qed.

(** C4.  For every object, [setPosition newPosition] stores as internal
    position [newPosition << shift] (in 32 bits) or-ed with the low
    [shift] bits of the former internal position, where [shift] is 2 in
    the four-step modes and 1 in the two-step mode: bits below [shift] are
    those of the former internal position, bit [i] from [shift] to 31 is
    bit [i - shift] of [newPosition].  It stores [newPosition] as external
    and as previous external position, so [getPosition] called next
    returns [newPosition]; it changes neither time stamp (nor the old
    state, pins and mode). *)
Theorem setPosition_spec (e : RotaryEncoder) (newPosition : Z) :
  let shift := shift_of (_eMode e) in
  let e' := setPosition e newPosition in
  _i32Position e'
  = Z.lor (to_int32 (Z.shiftl newPosition shift))
          (Z.land (_i32Position e) (2 ^ shift - 1))
  /\ (forall i, 0 <= i < shift ->
        Z.testbit (_i32Position e') i = Z.testbit (_i32Position e) i)
  /\ (forall i, shift <= i < 32 ->
        Z.testbit (_i32Position e') i = Z.testbit newPosition (i - shift))
  /\ is_int32 (_i32Position e')
  /\ _i32PositionExt e' = newPosition
  /\ _i32PositionExtPrev e' = newPosition
  /\ getPosition e' = (newPosition, e')
  /\ _u32PositionExtTime e' = _u32PositionExtTime e
  /\ _u32PositionExtTimePrev e' = _u32PositionExtTimePrev e
  /\ _i08OldState e' = _i08OldState e
  /\ _eMode e' = _eMode e
  /\ _u08Pin1 e' = _u08Pin1 e
  /\ _u08Pin2 e' = _u08Pin2 e.
Proof.
  intros shift e'.
  assert (Hs : 0 < shift <= 2) by (unfold shift; destruct (_eMode e); cbn; lia).
  assert (Hpos : _i32Position e'
                 = Z.lor (to_int32 (Z.shiftl newPosition shift))
                         (Z.land (_i32Position e) (2 ^ shift - 1))).
  { unfold e'. rewrite setPosition_eq. reflexivity. }
  split; [exact Hpos|].
  split.
  { intros i Hi. rewrite Hpos, Z.lor_spec.
    rewrite to_int32_testbit, Z.shiftl_spec_low, land_ones_testbit_low by lia.
    reflexivity. }
  split.
  { intros i Hi. rewrite Hpos, Z.lor_spec.
    rewrite to_int32_testbit, Z.shiftl_spec, land_ones_testbit_high by lia.
    apply orb_false_r. }
  split; [apply setPosition_Position_int32|].
  unfold e', getPosition. rewrite setPosition_eq. repeat split.
Qed.

Lemma setPosition_spec_witness :
  _i32Position at_latch_0 = 2
  /\ _i32Position (setPosition at_latch_0 5) = 22
  /\ Z.testbit (_i32Position (setPosition at_latch_0 5)) 1
     = Z.testbit (_i32Position at_latch_0) 1
  /\ Z.testbit (_i32Position (setPosition at_latch_0 5)) 4
     = Z.testbit 5 (4 - 2)
  /\ getPosition (setPosition at_latch_0 5) = (5, setPosition at_latch_0 5).
Proof.
  destruct (setPosition_spec at_latch_0 5)
    as (Hp & Hlow & Hhigh & _ & _ & _ & Hget & _).
  split; [reflexivity|].
  split; [rewrite Hp; reflexivity|].
  split; [apply Hlow; cbn; lia|].
  split; [apply (Hhigh 4); cbn; lia|].
  exact Hget.
Defined.

(** ** The transition table *)

(** C9.  The table is antisymmetric: for states [prevState] and [curState]
    in 0..3 the entry at [(prevState << 2) | curState] is the opposite of
    the entry at [(curState << 2) | prevState].  Hence two calls of [tick]
    that sample a state [b] and then the state the object started from
    leave the internal position where it was. *)
Theorem knobdir_antisymmetric_bounce
    (prevState curState : Z) (e : RotaryEncoder)
    (b1 b2 a1 a2 : PinLevel) (millis1 millis2 : Z) :
  0 <= prevState <= 3 ->
  0 <= curState <= 3 ->
  wf e ->
  readState a1 a2 = _i08OldState e ->
  knobdir (Z.lor (Z.shiftl prevState 2) curState)
  = - knobdir (Z.lor (Z.shiftl curState 2) prevState)
  /\ _i32Position (tick (tick e b1 b2 millis1) a1 a2 millis2) = _i32Position e.
Proof.
  intros Hp Hc Hwf Ha. split.
  - case_state Hp; case_state Hc; subst; reflexivity.
  - destruct (Z.eq_dec (readState b1 b2) (_i08OldState e)) as [Heq|Hne].
    + rewrite (tick_unchanged e b1 b2 millis1 Heq).
      rewrite (tick_unchanged e a1 a2 millis2 Ha). reflexivity.
    + rewrite tick_Position
        by (rewrite tick_OldState, Ha; intros H; apply Hne; symmetry; exact H).
      rewrite tick_OldState, tick_Position by exact Hne.
      rewrite to_int32_add_l, Ha.
      assert (Hk : knobdir (Z.lor (readState b1 b2) (Z.shiftl (_i08OldState e) 2))
                   + knobdir (Z.lor (_i08OldState e) (Z.shiftl (readState b1 b2) 2))
                   = 0).
      { destruct (state_cases _ (wf_OldState e Hwf)) as [H|[H|[H|H]]];
          rewrite H; destruct b1, b2; reflexivity. }
      rewrite <- Z.add_assoc, Hk, Z.add_0_r.
      apply to_int32_id. apply Hwf.
Qed.

Lemma knobdir_antisymmetric_bounce_witness :
  (0 <= 3 <= 3) /\ (0 <= 1 <= 3)
  /\ wf (RotaryEncoder_new 2 3 FOUR0 0 0)
  /\ readState HIGH HIGH = _i08OldState (RotaryEncoder_new 2 3 FOUR0 0 0)
  /\ knobdir (Z.lor (Z.shiftl 3 2) 1) = - knobdir (Z.lor (Z.shiftl 1 2) 3)
  /\ _i32Position
       (tick (tick (RotaryEncoder_new 2 3 FOUR0 0 0) HIGH LOW 5) HIGH HIGH 6)
     = _i32Position (RotaryEncoder_new 2 3 FOUR0 0 0).
Proof.
  assert (Hwf : wf (RotaryEncoder_new 2 3 FOUR0 0 0))
    by (apply wf_new; unfold is_uint32; lia).
  assert (H3 : 0 <= 3 <= 3) by lia.
  assert (H1 : 0 <= 1 <= 3) by lia.
  assert (Ha : readState HIGH HIGH = _i08OldState (RotaryEncoder_new 2 3 FOUR0 0 0))
    by reflexivity.
  repeat (split; [assumption|]).
  exact (knobdir_antisymmetric_bounce 3 1 (RotaryEncoder_new 2 3 FOUR0 0 0)
           HIGH LOW HIGH HIGH 5 6 H3 H1 Hwf Ha).
Defined.

(** C10.  A call of [tick] whose transition flips both bits at once, one
    of (0,3), (3,0), (1,2), (2,1), leaves the internal position unchanged
    (the table entry is 0) and still stores the sampled state as old
    state; when the sampled state satisfies the mode's latch condition the
    latch happens as for any other transition: the external position
    becomes the internal position shifted right by the mode's shift, the
    former last time stamp becomes the prior one and the clock becomes the
    last one.  Without the latch condition these three members keep their
    values. *)
Theorem tick_both_bits_flip
    (e : RotaryEncoder) (sig1 sig2 : PinLevel) (millis : Z) :
  wf e ->
  both_bits_flip (_i08OldState e) (readState sig1 sig2) = true ->
  let cur := readState sig1 sig2 in
  let e' := tick e sig1 sig2 millis in
  table_delta (_i08OldState e) cur = 0
  /\ _i32Position e' = _i32Position e
  /\ _i08OldState e' = cur
  /\ (latch_condition (_eMode e) cur = true ->
        _i32PositionExt e' = Z.shiftr (_i32Position e') (shift_of (_eMode e))
        /\ _u32PositionExtTimePrev e' = _u32PositionExtTime e
        /\ _u32PositionExtTime e' = millis)
  /\ (latch_condition (_eMode e) cur = false ->
        _i32PositionExt e' = _i32PositionExt e
        /\ _u32PositionExtTimePrev e' = _u32PositionExtTimePrev e
        /\ _u32PositionExtTime e' = _u32PositionExtTime e).
Proof.
  intros Hwf Hflip cur e'.
  assert (Hne : cur <> _i08OldState e).
  { unfold cur. intros Heq. rewrite <- Heq in Hflip.
    destruct sig1, sig2; discriminate Hflip. }
  assert (Hd : table_delta (_i08OldState e) cur = 0).
  { unfold cur in *.
    destruct (state_cases _ (wf_OldState e Hwf)) as [H|[H|[H|H]]];
      rewrite H in *; destruct sig1, sig2;
      first [discriminate Hflip | reflexivity]. }
  assert (Hpos : _i32Position e' = _i32Position e).
  { unfold e'. rewrite tick_Position by exact Hne. fold cur.
    rewrite knobdir_table_delta by (try apply Hwf; apply readState_range).
    rewrite Hd, Z.add_0_r. apply to_int32_id. apply Hwf. }
  split; [exact Hd|]. split; [exact Hpos|].
  split; [apply tick_OldState|].
  unfold e'.
  rewrite tick_PositionExt, tick_PositionExtTime, tick_PositionExtTimePrev,
    tick_Position by exact Hne.
  fold cur. split; intros Hl; rewrite Hl; repeat split.
Qed.

Lemma tick_both_bits_flip_witness :
  wf (RotaryEncoder_new 2 3 TWO03 0 0)
  /\ both_bits_flip (_i08OldState (RotaryEncoder_new 2 3 TWO03 0 0))
       (readState LOW LOW) = true
  /\ _i32Position (tick (RotaryEncoder_new 2 3 TWO03 0 0) LOW LOW 9) = 0
  /\ _i08OldState (tick (RotaryEncoder_new 2 3 TWO03 0 0) LOW LOW 9) = 0
  /\ _u32PositionExtTime (tick (RotaryEncoder_new 2 3 TWO03 0 0) LOW LOW 9) = 9.
Proof.
  assert (Hwf : wf (RotaryEncoder_new 2 3 TWO03 0 0))
    by (apply wf_new; unfold is_uint32; lia).
  assert (Hf : both_bits_flip (_i08OldState (RotaryEncoder_new 2 3 TWO03 0 0))
                 (readState LOW LOW) = true) by reflexivity.
  split; [exact Hwf|]. split; [exact Hf|].
  destruct (tick_both_bits_flip (RotaryEncoder_new 2 3 TWO03 0 0) LOW LOW 9 Hwf Hf)
    as (_ & Hp & Ho & Hl & _).
  split; [exact Hp|]. split; [exact Ho|].
  apply Hl. reflexivity.
Defined.

(** ** External against internal position *)

(** C2, as stated, fails.  In each mode, the object just constructed and
    turned one step down (from raw state 3 to raw state 2, which is no
    latch state of any mode) has internal position -1 and external
    position 0, while -1 shifted right arithmetically is -1.  And
    [setPosition 1073741824] in a four-step mode stores 1073741824 as
    external position, while the shifted value does not fit 32 bits. *)
Lemma synced_at_all_times_counterexample :
  (_i32Position (tick (RotaryEncoder_new 2 3 FOUR3 0 0) LOW HIGH 5) = -1
   /\ _i32PositionExt (tick (RotaryEncoder_new 2 3 FOUR3 0 0) LOW HIGH 5) = 0
   /\ ~ synced (tick (RotaryEncoder_new 2 3 FOUR3 0 0) LOW HIGH 5))
  /\ ~ synced (tick (RotaryEncoder_new 2 3 FOUR0 0 0) LOW HIGH 5)
  /\ ~ synced (tick (RotaryEncoder_new 2 3 TWO03 0 0) LOW HIGH 5)
  /\ (_i32Position (setPosition (RotaryEncoder_new 2 3 FOUR0 0 0) 1073741824) = 0
      /\ _i32PositionExt (setPosition (RotaryEncoder_new 2 3 FOUR0 0 0) 1073741824)
         = 1073741824
      /\ ~ synced (setPosition (RotaryEncoder_new 2 3 FOUR0 0 0) 1073741824)).
Proof.
  repeat split; try reflexivity; unfold synced; vm_compute; discriminate.
Qed.

(** C2, amended.  The external position equals the internal position
    shifted right arithmetically by the mode's shift (2 in the four-step
    modes, 1 in the two-step mode)
    - after construction;
    - after every [tick] whose sampled state differs from the old state
      and satisfies the mode's latch condition;
    - after [setPosition newPosition] when [newPosition << shift] is an
      [int32_t];
    and [getDirection], [getPosition] and a [tick] that samples the old
    state keep the equality when it holds.  A [tick] to a state that is no
    latch state changes the internal position only and leaves the external
    position as it was. *)
Theorem synced_when_latched
    (u08Pin1 u08Pin2 : Z) (mode : LatchMode) (time0 timePrev0 : Z)
    (e : RotaryEncoder) (sig1 sig2 : PinLevel) (millis newPosition : Z) :
  synced (RotaryEncoder_new u08Pin1 u08Pin2 mode time0 timePrev0)
  /\ (readState sig1 sig2 <> _i08OldState e ->
      latch_condition (_eMode e) (readState sig1 sig2) = true ->
      synced (tick e sig1 sig2 millis))
  /\ (fits_shifted (_eMode e) newPosition -> synced (setPosition e newPosition))
  /\ (synced e -> synced (snd (getDirection e)))
  /\ (synced e -> synced (snd (getPosition e)))
  /\ (readState sig1 sig2 = _i08OldState e ->
      synced e -> synced (tick e sig1 sig2 millis))
  /\ (readState sig1 sig2 <> _i08OldState e ->
      latch_condition (_eMode e) (readState sig1 sig2) = false ->
      _i32PositionExt (tick e sig1 sig2 millis) = _i32PositionExt e).
Proof.
  split; [destruct mode; reflexivity|].
  split.
  { intros Hne Hl. unfold synced.
    rewrite tick_PositionExt, tick_Position, tick_Mode, Hl by exact Hne.
    reflexivity. }
  split; [apply setPosition_synced|].
  split.
  { unfold synced, getDirection. intros H.
    destruct (_ >? _); [|destruct (_ <? _)]; exact H. }
  split; [intros H; exact H|].
  split.
  { intros Heq H. rewrite tick_unchanged by exact Heq. exact H. }
  intros Hne Hl. rewrite tick_PositionExt, Hl by exact Hne. reflexivity.
Qed.

Lemma synced_when_latched_witness :
  synced (RotaryEncoder_new 2 3 FOUR0 0 0)
  /\ synced (tick (tick (RotaryEncoder_new 2 3 FOUR0 0 0) HIGH LOW 1) LOW LOW 2)
  /\ synced (setPosition at_latch_0 5)
  /\ synced (snd (getDirection at_latch_0))
  /\ synced (tick at_latch_0 LOW LOW 3)
  /\ _i32PositionExt (tick (RotaryEncoder_new 2 3 FOUR0 0 0) HIGH LOW 1) = 0.
Proof.
  assert (Hs : synced at_latch_0) by reflexivity.
  destruct (synced_when_latched 2 3 FOUR0 0 0
              (tick (RotaryEncoder_new 2 3 FOUR0 0 0) HIGH LOW 1) LOW LOW 2 0)
    as (Hnew & Htick & _).
  destruct (synced_when_latched 2 3 FOUR0 0 0 at_latch_0 LOW LOW 3 5)
    as (_ & _ & Hset & Hdir & _ & Hsame & _).
  destruct (synced_when_latched 2 3 FOUR0 0 0
              (RotaryEncoder_new 2 3 FOUR0 0 0) HIGH LOW 1 0)
    as (_ & _ & _ & _ & _ & _ & Hno).
  split; [exact Hnew|].
  split; [apply Htick; [vm_compute; discriminate | reflexivity]|].
  split; [apply Hset; unfold fits_shifted; vm_compute;
          split; [discriminate | reflexivity]|].
  split; [apply Hdir; exact Hs|].
  split; [apply Hsame; [reflexivity | exact Hs]|].
  apply Hno; [vm_compute; discriminate | reflexivity].
Defined.

(** ** One detent in the mode that latches at raw state 0 *)

Lemma single_bit_step_changed (prevState curState : Z) :
  single_bit_step prevState curState = true -> curState <> prevState.
Proof.
  unfold single_bit_step. intros H Heq. subst curState.
  rewrite Z.lxor_nilpotent in H. discriminate H.
Qed.

Lemma latch_FOUR0 (e : RotaryEncoder) (state : Z) :
  _eMode e = FOUR0 -> latch_condition (_eMode e) state = (state =? 0).
Proof. intros H. rewrite H. reflexivity. Qed.

Lemma shiftr2_add4 (x k : Z) : Z.shiftr (x + 4 * k) 2 = Z.shiftr x 2 + k.
Proof.
  rewrite !Z.shiftr_div_pow2 by lia.
  change (2 ^ 2) with 4. rewrite (Z.mul_comm 4 k), Z.div_add by lia.
  reflexivity.
Qed.

(** Four calls of [tick], each to a state one bit away, the last one to
    raw state 0: the internal position moves by the sum of the four table
    entries and the last call latches. *)
Lemma four_steps_FOUR0_positions
    (e : RotaryEncoder) (a1 a2 b1 b2 c1 c2 d1 d2 : PinLevel)
    (m1 m2 m3 m4 : Z) :
  let s1 := readState a1 a2 in
  let s2 := readState b1 b2 in
  let s3 := readState c1 c2 in
  let s4 := readState d1 d2 in
  let e' := ticks e [ (a1, a2, m1); (b1, b2, m2); (c1, c2, m3); (d1, d2, m4) ] in
  _eMode e = FOUR0 ->
  _i08OldState e = 0 ->
  single_bit_step 0 s1 = true ->
  single_bit_step s1 s2 = true ->
  single_bit_step s2 s3 = true ->
  single_bit_step s3 s4 = true ->
  s4 = 0 ->
  _i32Position e'
  = to_int32 (_i32Position e
              + (table_delta 0 s1 + table_delta s1 s2
                 + table_delta s2 s3 + table_delta s3 s4))
  /\ _i32PositionExt e' = Z.shiftr (_i32Position e') 2
  /\ _i08OldState e' = 0.
Proof.
  intros s1 s2 s3 s4 e' Hmode Hold H1 H2 H3 H4 Hend.
  apply single_bit_step_changed in H1, H2, H3, H4.
  unfold e', ticks. cbn [fold_left tick_sample].
  set (e1 := tick e a1 a2 m1).
  set (e2 := tick e1 b1 b2 m2).
  set (e3 := tick e2 c1 c2 m3).
  assert (Ho1 : _i08OldState e1 = s1) by apply tick_OldState.
  assert (Ho2 : _i08OldState e2 = s2) by apply tick_OldState.
  assert (Ho3 : _i08OldState e3 = s3) by apply tick_OldState.
  assert (Hc1 : readState a1 a2 <> _i08OldState e) by (rewrite Hold; exact H1).
  assert (Hc2 : readState b1 b2 <> _i08OldState e1) by (rewrite Ho1; exact H2).
  assert (Hc3 : readState c1 c2 <> _i08OldState e2) by (rewrite Ho2; exact H3).
  assert (Hc4 : readState d1 d2 <> _i08OldState e3) by (rewrite Ho3; exact H4).
  assert (Hm3 : _eMode e3 = FOUR0).
  { unfold e3, e2, e1. rewrite !tick_Mode. exact Hmode. }
  assert (Hp : _i32Position (tick e3 d1 d2 m4)
               = to_int32 (_i32Position e
                           + (table_delta 0 s1 + table_delta s1 s2
                              + table_delta s2 s3 + table_delta s3 s4))).
  { rewrite tick_Position by exact Hc4.
    unfold e3 at 1. rewrite tick_Position by exact Hc3.
    unfold e2 at 1. rewrite tick_Position by exact Hc2.
    unfold e1 at 1. rewrite tick_Position by exact Hc1.
    rewrite Ho3, Ho2, Ho1, Hold.
    rewrite !knobdir_table_delta by (try lia; apply readState_range).
    repeat (rewrite to_int32_add_l, <- ?Z.add_assoc).
    fold s1 s2 s3 s4. f_equal; lia. }
  split; [exact Hp|]. split.
  - rewrite tick_PositionExt, tick_Position by exact Hc4.
    rewrite (latch_FOUR0 e3 _ Hm3). fold s4. rewrite Hend, Hm3. reflexivity.
  - rewrite tick_OldState. exact Hend.
Qed.

(** C6, as stated, fails at the ends of the 32-bit range.  [at_latch_0] is
    in the mode that latches at 0, in raw state 0.  After
    [setPosition 536870911] its internal position is 2147483646; one
    detent up (deltas summing to 4) wraps it around and the external
    position goes from 536870911 to -536870912.  After
    [setPosition 1073741824], whose shifted value does not fit 32 bits,
    the external position is 1073741824 over an internal position 2, and
    one detent up makes it 1. *)
Lemma four_steps_FOUR0_counterexample :
  _eMode at_latch_0 = FOUR0
  /\ _i08OldState at_latch_0 = 0
  /\ table_delta 0 2 + table_delta 2 3 + table_delta 3 1 + table_delta 1 0 = 4
  /\ (_i08OldState (setPosition at_latch_0 536870911) = 0
      /\ _i32PositionExt (setPosition at_latch_0 536870911) = 536870911
      /\ _i08OldState
           (ticks (setPosition at_latch_0 536870911) (up_cycle_from_0 3)) = 0
      /\ _i32PositionExt
           (ticks (setPosition at_latch_0 536870911) (up_cycle_from_0 3))
         = -536870912)
  /\ (_i08OldState (setPosition at_latch_0 1073741824) = 0
      /\ _i32PositionExt (setPosition at_latch_0 1073741824) = 1073741824
      /\ _i32PositionExt
           (ticks (setPosition at_latch_0 1073741824) (up_cycle_from_0 3))
         = 1).
Proof. repeat split. Qed.

(** C6, amended.  In the mode that latches at raw state 0, from an object
    in raw state 0 whose external position is its internal position
    shifted right by 2 (as every latch leaves it), four calls of [tick]
    that each move to a state one bit away and end in raw state 0 change
    the external position by exactly +1 when the four table entries sum to
    +4 and the internal position plus 4 is an [int32_t], and by exactly -1
    when they sum to -4 and the internal position minus 4 is an
    [int32_t]. *)
Theorem four_steps_FOUR0_detent
    (e : RotaryEncoder) (a1 a2 b1 b2 c1 c2 d1 d2 : PinLevel)
    (m1 m2 m3 m4 : Z) :
  let s1 := readState a1 a2 in
  let s2 := readState b1 b2 in
  let s3 := readState c1 c2 in
  let s4 := readState d1 d2 in
  let total := table_delta 0 s1 + table_delta s1 s2
               + table_delta s2 s3 + table_delta s3 s4 in
  let e' := ticks e [ (a1, a2, m1); (b1, b2, m2); (c1, c2, m3); (d1, d2, m4) ] in
  _eMode e = FOUR0 ->
  _i08OldState e = 0 ->
  is_int32 (_i32Position e) ->
  synced e ->
  single_bit_step 0 s1 = true ->
  single_bit_step s1 s2 = true ->
  single_bit_step s2 s3 = true ->
  single_bit_step s3 s4 = true ->
  s4 = 0 ->
  (total = 4 -> _i32Position e + 4 <= INT32_MAX ->
   _i32PositionExt e' = _i32PositionExt e + 1)
  /\ (total = -4 -> INT32_MIN <= _i32Position e - 4 ->
      _i32PositionExt e' = _i32PositionExt e - 1).
Proof.
  intros s1 s2 s3 s4 total e' Hmode Hold Hpos Hsync H1 H2 H3 H4 Hend.
  destruct (four_steps_FOUR0_positions e a1 a2 b1 b2 c1 c2 d1 d2 m1 m2 m3 m4
              Hmode Hold H1 H2 H3 H4 Hend) as (Hp & Hx & _).
  fold s1 s2 s3 s4 total e' in Hp, Hx.
  unfold synced in Hsync. rewrite Hmode in Hsync. cbn [shift_of] in Hsync.
  unfold is_int32, INT32_MAX, INT32_MIN in *.
  split; intros Ht Hr; rewrite Hx, Hp, Ht, Hsync.
  - rewrite to_int32_id by (unfold is_int32; lia).
    apply (shiftr2_add4 (_i32Position e) 1).
  - rewrite to_int32_id by (unfold is_int32; lia).
    apply (shiftr2_add4 (_i32Position e) (-1)).
Qed.

Lemma four_steps_FOUR0_detent_witness :
  _i32PositionExt (ticks at_latch_0 (up_cycle_from_0 3))
  = _i32PositionExt at_latch_0 + 1.
Proof.
  refine (proj1 (four_steps_FOUR0_detent at_latch_0
                   LOW HIGH HIGH HIGH HIGH LOW LOW LOW 3 3 3 3
                   _ _ _ _ _ _ _ _ _) _ _);
    first [ reflexivity
          | vm_compute; split; [discriminate | reflexivity]
          | vm_compute; discriminate ].
Defined.

(** ** Time between rotations *)

(** C8.  [getMillisBetweenRotations] returns the last time stamp minus the
    prior one in unsigned 32-bit arithmetic, for every pair of stored time
    stamps, and leaves the object as it is: the plain difference when the
    prior stamp is not after the last one, the difference plus 2^32 when
    the clock wrapped in between.  After latches at 100 and 150 it returns
    50; after a latch at 0xFFFFFFF0 and one at 10 it returns 26. *)
Theorem getMillisBetweenRotations_spec (e : RotaryEncoder) :
  getMillisBetweenRotations e
  = ((_u32PositionExtTime e - _u32PositionExtTimePrev e) mod 2 ^ 32, e)
  /\ is_uint32 (fst (getMillisBetweenRotations e))
  /\ (is_uint32 (_u32PositionExtTime e) ->
      is_uint32 (_u32PositionExtTimePrev e) ->
      fst (getMillisBetweenRotations e)
      = if _u32PositionExtTimePrev e <=? _u32PositionExtTime e
        then _u32PositionExtTime e - _u32PositionExtTimePrev e
        else _u32PositionExtTime e - _u32PositionExtTimePrev e + 2 ^ 32)
  /\ (_u32PositionExtTimePrev (bounce_3_1 100 150) = 100
      /\ _u32PositionExtTime (bounce_3_1 100 150) = 150
      /\ getMillisBetweenRotations (bounce_3_1 100 150)
         = (50, bounce_3_1 100 150))
  /\ (_u32PositionExtTimePrev (bounce_3_1 4294967280 10) = 4294967280
      /\ _u32PositionExtTime (bounce_3_1 4294967280 10) = 10
      /\ getMillisBetweenRotations (bounce_3_1 4294967280 10)
         = (26, bounce_3_1 4294967280 10)).
Proof.
  split; [reflexivity|].
  split; [apply to_uint32_range|].
  split.
  { unfold is_uint32, getMillisBetweenRotations, to_uint32. cbn [fst].
    intros Ht Hp.
    destruct (Z.leb_spec (_u32PositionExtTimePrev e) (_u32PositionExtTime e)).
    - apply Z.mod_small. lia.
    - rewrite <- (Z.mod_small (_ + 2 ^ 32) (2 ^ 32)) by lia.
      rewrite <- (Z_mod_plus_full _ 1 (2 ^ 32)). f_equal; lia. }
  split; repeat split.
Qed.

Lemma getMillisBetweenRotations_spec_witness :
  is_uint32 (_u32PositionExtTime (bounce_3_1 4294967280 10))
  /\ is_uint32 (_u32PositionExtTimePrev (bounce_3_1 4294967280 10))
  /\ fst (getMillisBetweenRotations (bounce_3_1 4294967280 10))
     = 10 - 4294967280 + 2 ^ 32.
Proof.
  assert (Ht : is_uint32 (_u32PositionExtTime (bounce_3_1 4294967280 10)))
    by (vm_compute; split; [discriminate | reflexivity]).
  assert (Hp : is_uint32 (_u32PositionExtTimePrev (bounce_3_1 4294967280 10)))
    by (vm_compute; split; [discriminate | reflexivity]).
  split; [exact Ht|]. split; [exact Hp|].
  destruct (getMillisBetweenRotations_spec (bounce_3_1 4294967280 10))
    as (_ & _ & H & _).
  rewrite (H Ht Hp). reflexivity.
Defined.

(** ** Speed *)

Lemma getRPM_t_zero (e : RotaryEncoder) (millis : Z) :
  is_uint32 (_u32PositionExtTime e) ->
  is_uint32 (_u32PositionExtTimePrev e) ->
  is_uint32 millis ->
  (getRPM_t e millis = 0
   <-> _u32PositionExtTimePrev e = _u32PositionExtTime e
       /\ millis = _u32PositionExtTime e).
Proof.
  unfold is_uint32, getRPM_t, max, to_uint32. intros Ht Hp Hm.
  set (a := _u32PositionExtTime e) in *.
  set (b := _u32PositionExtTimePrev e) in *.
  pose proof (Z.mod_pos_bound (a - b) (2 ^ 32) ltac:(lia)) as Hab.
  pose proof (Z.mod_pos_bound (millis - a) (2 ^ 32) ltac:(lia)) as Hma.
  assert (Hz : forall x y, 0 <= x < 2 ^ 32 -> 0 <= y < 2 ^ 32 ->
                 ((x - y) mod 2 ^ 32 = 0 <-> x = y)).
  { intros x y Hx Hy. split.
    - intros H0. apply Z.mod_divide in H0; [|lia].
      destruct H0 as [k Hk]. nia.
    - intros ->. rewrite Z.sub_diag. reflexivity. }
  destruct (Z.gtb_spec ((a - b) mod 2 ^ 32) ((millis - a) mod 2 ^ 32)) as [Hgt|Hle].
  - split.
    + intros H0. lia.
    + intros [Hb Hm'].
      pose proof (proj2 (Hz a b Ht Hp) (eq_sym Hb)).
      pose proof (proj2 (Hz millis a Hm Ht) Hm'). lia.
  - split.
    + intros H0. split.
      * symmetry. apply (Hz a b Ht Hp). lia.
      * apply (Hz millis a Hm Ht). exact H0.
    + intros [Hb Hm']. apply (Hz millis a Hm Ht). exact Hm'.
Qed.

(** Away from 0 the model computes the truncated quotient 60000 / (t * 20):
    3000 for t = 1, 20 for t = 150, 0 from t = 3001 on. *)
Lemma getRPM_examples :
  fst (getRPM Binary64 (bounce_3_1 7 8) 8) = Some 3000
  /\ fst (getRPM Binary32 (bounce_3_1 7 8) 8) = Some 3000
  /\ fst (getRPM Binary64 (bounce_3_1 100 250) 260) = Some 20
  /\ fst (getRPM Binary32 (bounce_3_1 100 250) 260) = Some 20
  /\ fst (getRPM Binary64 (bounce_3_1 100 250) 3251) = Some 0.
Proof. repeat split. Qed.

(** C7: what [getRPM] does when [t] is 0.  The code has no test of [t]:
    it converts [t * 20], which is 0, to the float 0.0, divides 60000.0 by
    it, which in IEEE 754 arithmetic gives plus infinity, and converts the
    infinity to [uint32_t], a conversion for which C++ defines no result.
    So no sentinel is returned in place of the division by zero; this
    holds whether [double] has 32 or 64 bits. *)
Theorem getRPM_zero_interval
    (fmt : DoubleFormat) (e : RotaryEncoder) (millis : Z) :
  getRPM_t e millis = 0 ->
  float_of_uint32 (to_uint32 (getRPM_t e millis * 20)) = S754_zero false
  /\ getRPM_quotient fmt e millis = S754_infinity false
  /\ getRPM fmt e millis = (None, e).
Proof.
  intros Ht. unfold getRPM, getRPM_quotient. rewrite Ht.
  destruct fmt; repeat split.
Qed.

Lemma getRPM_zero_interval_witness :
  _u32PositionExtTimePrev (bounce_3_1 7 7) = 7
  /\ _u32PositionExtTime (bounce_3_1 7 7) = 7
  /\ getRPM_t (bounce_3_1 7 7) 7 = 0
  /\ getRPM Binary64 (bounce_3_1 7 7) 7 = (None, bounce_3_1 7 7)
  /\ getRPM Binary32 (bounce_3_1 7 7) 7 = (None, bounce_3_1 7 7).
Proof.
  assert (Ht : getRPM_t (bounce_3_1 7 7) 7 = 0) by reflexivity.
  split; [reflexivity|]. split; [reflexivity|]. split; [exact Ht|].
  split.
  - apply (getRPM_zero_interval Binary64 (bounce_3_1 7 7) 7 Ht).
  - apply (getRPM_zero_interval Binary32 (bounce_3_1 7 7) 7 Ht).
Defined.

(** ** Runs of calls: what every run keeps *)

Lemma wf_call (e : RotaryEncoder) (c : Call) :
  call_typed c -> wf e -> wf (call e c).
Proof.
  destruct c as [sig1 sig2 millis|newPosition| | | |fmt millis];
    cbn [call call_typed]; intros Hc Hwf.
  - apply wf_tick; assumption.
  - apply wf_setPosition; assumption.
  - exact Hwf.
  - apply wf_getDirection. exact Hwf.
  - exact Hwf.
  - exact Hwf.
Qed.

Lemma wf_calls (cs : list Call) (e : RotaryEncoder) :
  Forall call_typed cs -> wf e -> wf (calls e cs).
Proof.
  revert e. induction cs as [|c cs IH]; intros e Hcs Hwf.
  - exact Hwf.
  - inversion Hcs as [|c' cs' Hc Hrest]; subst.
    unfold calls. cbn [fold_left]. apply IH; [exact Hrest|].
    apply wf_call; assumption.
Qed.

(** X1.  Whatever member functions are called on a constructed object, in
    whatever order and with whatever pin levels, clock values and new
    positions of their types, every member stays in the range of its type,
    the old state stays one of 0, 1, 2, 3, and therefore the next [tick]
    reads [ci08KNOBDIR] at an index from 0 to 15, inside the array. *)
Theorem calls_keep_members_in_range
    (u08Pin1 u08Pin2 : Z) (mode : LatchMode) (time0 timePrev0 : Z)
    (cs : list Call) (sig1 sig2 : PinLevel) :
  is_uint32 time0 ->
  is_uint32 timePrev0 ->
  Forall call_typed cs ->
  let e := calls (RotaryEncoder_new u08Pin1 u08Pin2 mode time0 timePrev0) cs in
  wf e
  /\ 0 <= Z.lor (readState sig1 sig2) (Z.shiftl (_i08OldState e) 2) < 16.
Proof.
  intros H0 H1 Hcs e.
  assert (Hwf : wf e) by (apply wf_calls; [exact Hcs | apply wf_new; assumption]).
  split; [exact Hwf|]. apply tick_index_in_range. apply Hwf.
Qed.

Lemma calls_keep_members_in_range_witness :
  wf (calls (RotaryEncoder_new 2 3 FOUR0 0 0)
        [ CallTick HIGH LOW 5; CallSetPosition (-7); CallGetDirection;
          CallTick LOW LOW 4294967295; CallGetRPM Binary32 9 ]).
Proof.
  refine (proj1 (calls_keep_members_in_range 2 3 FOUR0 0 0
                   [ CallTick HIGH LOW 5; CallSetPosition (-7); CallGetDirection;
                     CallTick LOW LOW 4294967295; CallGetRPM Binary32 9 ]
                   LOW LOW _ _ _)).
  - unfold is_uint32; lia.
  - unfold is_uint32; lia.
  - repeat constructor; cbn; unfold is_uint32, is_int32; lia.
Defined.

(** ** Runs of ticks: the internal position *)

Lemma table_delta_same (state : Z) : 0 <= state <= 3 -> table_delta state state = 0.
Proof. intros H. case_state H; subst; reflexivity. Qed.

(** One call of [tick], whether the state changed or not. *)
Lemma tick_Position_delta (e : RotaryEncoder) (sig1 sig2 : PinLevel) (millis : Z) :
  0 <= _i08OldState e <= 3 ->
  is_int32 (_i32Position e) ->
  _i32Position (tick e sig1 sig2 millis)
  = to_int32 (_i32Position e + table_delta (_i08OldState e) (readState sig1 sig2)).
Proof.
  intros Ho Hp.
  destruct (Z.eq_dec (readState sig1 sig2) (_i08OldState e)) as [Heq|Hne].
  - rewrite tick_unchanged by exact Heq.
    rewrite Heq, table_delta_same, Z.add_0_r by exact Ho.
    symmetry. apply to_int32_id. exact Hp.
  - rewrite tick_Position by exact Hne.
    rewrite knobdir_table_delta by (try exact Ho; apply readState_range).
    reflexivity.
Qed.

Lemma tick_Position_int32 (e : RotaryEncoder) (sig1 sig2 : PinLevel) (millis : Z) :
  is_int32 (_i32Position e) -> is_int32 (_i32Position (tick e sig1 sig2 millis)).
Proof.
  intros Hp.
  destruct (Z.eq_dec (readState sig1 sig2) (_i08OldState e)) as [Heq|Hne].
  - rewrite tick_unchanged by exact Heq. exact Hp.
  - rewrite tick_Position by exact Hne. apply to_int32_range.
Qed.

Lemma ticks_cons (e : RotaryEncoder) (sig1 sig2 : PinLevel) (millis : Z)
    (xs : list Sample) :
  ticks e ((sig1, sig2, millis) :: xs) = ticks (tick e sig1 sig2 millis) xs.
Proof. reflexivity. Qed.

Lemma ticks_app (e : RotaryEncoder) (xs ys : list Sample) :
  ticks e (xs ++ ys) = ticks (ticks e xs) ys.
Proof. unfold ticks. apply fold_left_app. Qed.

Lemma ticks_path (xs : list Sample) (e : RotaryEncoder) :
  0 <= _i08OldState e <= 3 ->
  is_int32 (_i32Position e) ->
  _i08OldState (ticks e xs) = last_state (_i08OldState e) xs
  /\ _i32Position (ticks e xs)
     = to_int32 (_i32Position e + path_delta (_i08OldState e) xs).
Proof.
  revert e. induction xs as [|[[sig1 sig2] millis] xs IH]; intros e Ho Hp.
  - split; [reflexivity|]. cbn [ticks fold_left path_delta].
    rewrite Z.add_0_r. symmetry. apply to_int32_id. exact Hp.
  - rewrite ticks_cons. cbn [last_state path_delta].
    destruct (IH (tick e sig1 sig2 millis)) as (IHo & IHp).
    + rewrite tick_OldState. apply readState_range.
    + apply tick_Position_int32. exact Hp.
    + rewrite tick_OldState in IHo, IHp. split; [exact IHo|].
      rewrite IHp, tick_Position_delta by assumption.
      rewrite to_int32_add_l. f_equal. lia.
Qed.

(** X2.  After any run of [tick] calls the old state is the last sampled
    state and the internal position is the starting one plus the sum of
    the table entries along the run of states, in 32-bit signed
    arithmetic: nothing else accumulates, and samples that repeat a state
    add nothing. *)
Theorem ticks_position_is_path_sum (xs : list Sample) (e : RotaryEncoder) :
  0 <= _i08OldState e <= 3 ->
  is_int32 (_i32Position e) ->
  _i08OldState (ticks e xs) = last_state (_i08OldState e) xs
  /\ _i32Position (ticks e xs)
     = to_int32 (_i32Position e + path_delta (_i08OldState e) xs).
Proof. intros Ho Hp. apply ticks_path; assumption. Qed.

Lemma ticks_position_is_path_sum_witness :
  _i32Position (ticks (RotaryEncoder_new 2 3 FOUR3 0 0)
                  (up_cycle_from_3 (1, 2, 3, 4) ++ [(HIGH, HIGH, 5); (LOW, HIGH, 6)]))
  = 3.
Proof.
  refine (eq_trans
            (proj2 (ticks_position_is_path_sum
                      (up_cycle_from_3 (1, 2, 3, 4) ++ [(HIGH, HIGH, 5); (LOW, HIGH, 6)])
                      (RotaryEncoder_new 2 3 FOUR3 0 0) _ _)) _).
  - cbn; lia.
  - unfold is_int32; cbn; lia.
  - reflexivity.
Defined.

(** ** Runs of single-bit steps: the phase *)

Lemma to_int32_mod4 (x a : Z) : (to_int32 x - a) mod 4 = (x - a) mod 4.
Proof.
  unfold to_int32.
  rewrite (Z.mod_eq (x + 2 ^ 31) (2 ^ 32)) by lia.
  replace (x + 2 ^ 31 - 2 ^ 32 * ((x + 2 ^ 31) / 2 ^ 32) - 2 ^ 31 - a)
    with (x - a + (- 2 ^ 30 * ((x + 2 ^ 31) / 2 ^ 32)) * 4) by lia.
  apply Z_mod_plus_full.
Qed.

Lemma table_delta_phase (prevState : Z) (sig1 sig2 : PinLevel) :
  0 <= prevState <= 3 ->
  (readState sig1 sig2 =? prevState)
  || single_bit_step prevState (readState sig1 sig2) = true ->
  (table_delta prevState (readState sig1 sig2) + phase prevState
   - phase (readState sig1 sig2)) mod 4 = 0.
Proof.
  intros Hp Hs. case_state Hp; subst; destruct sig1, sig2;
    first [discriminate Hs | reflexivity].
Qed.

Lemma tick_phase (e : RotaryEncoder) (sig1 sig2 : PinLevel) (millis : Z) :
  0 <= _i08OldState e <= 3 ->
  is_int32 (_i32Position e) ->
  (readState sig1 sig2 =? _i08OldState e)
  || single_bit_step (_i08OldState e) (readState sig1 sig2) = true ->
  (_i32Position (tick e sig1 sig2 millis) - phase (readState sig1 sig2)) mod 4
  = (_i32Position e - phase (_i08OldState e)) mod 4.
Proof.
  intros Ho Hp Hs.
  rewrite tick_Position_delta by assumption.
  rewrite to_int32_mod4.
  pose proof (table_delta_phase (_i08OldState e) sig1 sig2 Ho Hs) as Hd.
  apply Z.mod_divide in Hd; [|lia]. destruct Hd as [k Hk].
  replace (_i32Position e + table_delta (_i08OldState e) (readState sig1 sig2)
           - phase (readState sig1 sig2))
    with (_i32Position e - phase (_i08OldState e) + k * 4) by lia.
  apply Z_mod_plus_full.
Qed.

(** X3.  Along a run of samples that each repeat the state before or
    change one bit of it, the internal position follows the raw state
    around the cycle 3, 1, 0, 2: position minus phase of the old state is
    the same modulo 4 before and after the run.  So a run of single-bit
    steps that comes back to the state it started from moves the internal
    position by a multiple of 4. *)
Theorem ticks_keep_phase (xs : list Sample) (e : RotaryEncoder) :
  0 <= _i08OldState e <= 3 ->
  is_int32 (_i32Position e) ->
  quadrature_run (_i08OldState e) xs = true ->
  (_i32Position (ticks e xs) - phase (_i08OldState (ticks e xs))) mod 4
  = (_i32Position e - phase (_i08OldState e)) mod 4
  /\ (_i08OldState (ticks e xs) = _i08OldState e ->
      (_i32Position (ticks e xs) - _i32Position e) mod 4 = 0).
Proof.
  intros Ho Hp Hq.
  assert (H : (_i32Position (ticks e xs) - phase (_i08OldState (ticks e xs))) mod 4
              = (_i32Position e - phase (_i08OldState e)) mod 4).
  { revert e Ho Hp Hq.
    induction xs as [|[[sig1 sig2] millis] xs IH]; intros e Ho Hp Hq.
    - reflexivity.
    - cbn [quadrature_run] in Hq. apply andb_prop in Hq. destruct Hq as [Hs Hq].
      rewrite ticks_cons.
      rewrite IH.
      + rewrite tick_OldState. apply tick_phase; assumption.
      + rewrite tick_OldState. apply readState_range.
      + apply tick_Position_int32. exact Hp.
      + rewrite tick_OldState. exact Hq. }
  split; [exact H|].
  intros Hsame. rewrite Hsame in H.
  rewrite <- (Z.sub_add (phase (_i08OldState e)) (_i32Position (ticks e xs))).
  replace (_i32Position (ticks e xs) - phase (_i08OldState e)
           + phase (_i08OldState e) - _i32Position e)
    with ((_i32Position (ticks e xs) - phase (_i08OldState e))
          - (_i32Position e - phase (_i08OldState e))) by lia.
  rewrite Zminus_mod, H, Z.sub_diag. reflexivity.
Qed.

Lemma ticks_keep_phase_witness :
  (_i32Position
     (ticks at_latch_0 [ (HIGH, LOW, 3); (HIGH, HIGH, 4); (HIGH, LOW, 5);
                         (HIGH, LOW, 6); (LOW, LOW, 7) ])
   - _i32Position at_latch_0) mod 4 = 0.
Proof.
  refine (proj2 (ticks_keep_phase
                   [ (HIGH, LOW, 3); (HIGH, HIGH, 4); (HIGH, LOW, 5);
                     (HIGH, LOW, 6); (LOW, LOW, 7) ] at_latch_0 _ _ _) _).
  - vm_compute. split; discriminate.
  - vm_compute. split; [discriminate | reflexivity].
  - reflexivity.
  - reflexivity.
Defined.

(** ** At a latch state the external position is in step *)

Lemma in_step_new (u08Pin1 u08Pin2 : Z) (mode : LatchMode) (time0 timePrev0 : Z) :
  in_step (RotaryEncoder_new u08Pin1 u08Pin2 mode time0 timePrev0).
Proof.
  constructor; cbn.
  - lia.
  - unfold is_int32; lia.
  - reflexivity.
  - intros _. unfold synced. cbn. destruct mode; reflexivity.
Qed.

Lemma in_step_tick (e : RotaryEncoder) (sig1 sig2 : PinLevel) (millis : Z) :
  (readState sig1 sig2 =? _i08OldState e)
  || single_bit_step (_i08OldState e) (readState sig1 sig2) = true ->
  in_step e -> in_step (tick e sig1 sig2 millis).
Proof.
  intros Hs [Ho Hp Hph Hl].
  destruct (Z.eq_dec (readState sig1 sig2) (_i08OldState e)) as [Heq|Hne].
  - rewrite tick_unchanged by exact Heq. constructor; assumption.
  - constructor.
    + rewrite tick_OldState. apply readState_range.
    + apply tick_Position_int32. exact Hp.
    + rewrite tick_OldState, tick_phase by assumption. exact Hph.
    + rewrite tick_OldState, tick_Mode. intros Hlc. unfold synced.
      rewrite tick_PositionExt, tick_Position, tick_Mode, Hlc by exact Hne.
      reflexivity.
Qed.

Lemma in_step_ticks (xs : list Sample) (e : RotaryEncoder) :
  quadrature_run (_i08OldState e) xs = true ->
  in_step e -> in_step (ticks e xs).
Proof.
  revert e. induction xs as [|[[sig1 sig2] millis] xs IH]; intros e Hq He.
  - exact He.
  - cbn [quadrature_run] in Hq. apply andb_prop in Hq. destruct Hq as [Hs Hq].
    rewrite ticks_cons. apply IH.
    + rewrite tick_OldState. exact Hq.
    + apply in_step_tick; assumption.
Qed.

Lemma ticks_Mode (xs : list Sample) (e : RotaryEncoder) :
  _eMode (ticks e xs) = _eMode e.
Proof.
  revert e. induction xs as [|[[sig1 sig2] millis] xs IH]; intros e.
  - reflexivity.
  - rewrite ticks_cons, IH. apply tick_Mode.
Qed.

(** X4.  An object that, since its construction, has only seen samples
    that repeat the state before or change one bit of it, and that is at a
    latch state of its mode, has its internal position equal to the
    external position times 2^shift plus the phase of the latch state
    reduced modulo 2^shift: exactly four times the external position at
    state 3 in the four-step modes (the header's "Internal position
    (4 times _i32PositionExt)"), four times plus 2 at state 0, and exactly
    twice the external position in the two-step mode. *)
Theorem internal_is_scaled_external_at_latch
    (u08Pin1 u08Pin2 : Z) (mode : LatchMode) (time0 timePrev0 : Z)
    (xs : list Sample) :
  let e := ticks (RotaryEncoder_new u08Pin1 u08Pin2 mode time0 timePrev0) xs in
  quadrature_run 3 xs = true ->
  latch_condition mode (_i08OldState e) = true ->
  _i32Position e
  = 2 ^ shift_of mode * _i32PositionExt e
    + phase (_i08OldState e) mod 2 ^ shift_of mode
  /\ (mode = FOUR3 -> _i32Position e = 4 * _i32PositionExt e)
  /\ (mode = FOUR0 -> _i32Position e = 4 * _i32PositionExt e + 2)
  /\ (mode = TWO03 -> _i32Position e = 2 * _i32PositionExt e).
Proof.
  intros e Hq Hl.
  assert (He : in_step e)
    by (apply in_step_ticks; [exact Hq | apply in_step_new]).
  assert (Hm : _eMode e = mode) by (unfold e; apply ticks_Mode).
  pose proof (in_step_OldState e He) as Ho.
  pose proof (in_step_phase e He) as Hph.
  pose proof (in_step_latched e He) as Hs.
  rewrite Hm in Hs. specialize (Hs Hl). unfold synced in Hs. rewrite Hm in Hs.
  set (p := _i32Position e) in *. set (x := _i32PositionExt e) in *.
  set (o := _i08OldState e) in *.
  apply Z.mod_divide in Hph; [|lia]. destruct Hph as [k Hk].
  assert (Hgen : forall s, shift_of mode = s -> s = 1 \/ s = 2 ->
                   p = 2 ^ s * x + phase o mod 2 ^ s).
  { intros s Hsm Hcase. rewrite Hsm in Hs.
    rewrite Z.shiftr_div_pow2 in Hs by lia.
    assert (Hp2 : 0 < 2 ^ s) by (apply Z.pow_pos_nonneg; lia).
    rewrite Hs.
    rewrite (Z.div_mod p (2 ^ s)) at 1 by lia. f_equal.
    replace p with (phase o + k * 4) by lia.
    destruct Hcase as [-> | ->].
    - replace (k * 4) with ((k * 2) * 2 ^ 1) by lia. apply Z_mod_plus_full.
    - replace (k * 4) with (k * 2 ^ 2) by lia. apply Z_mod_plus_full. }
  split; [apply Hgen; [reflexivity | apply shift_of_cases]|].
  assert (Hoc : o = 0 \/ o = 1 \/ o = 2 \/ o = 3) by (apply state_cases; exact Ho).
  split; [|split]; intros Hmode; rewrite Hmode in Hl; cbn [latch_condition] in Hl.
  - rewrite (Hgen 2) by (try (rewrite Hmode; reflexivity); auto).
    apply Z.eqb_eq in Hl. rewrite Hl. cbn; lia.
  - rewrite (Hgen 2) by (try (rewrite Hmode; reflexivity); auto).
    apply Z.eqb_eq in Hl. rewrite Hl. cbn; lia.
  - rewrite (Hgen 1) by (try (rewrite Hmode; reflexivity); auto).
    apply orb_prop in Hl. destruct Hl as [Hl|Hl];
      apply Z.eqb_eq in Hl; rewrite Hl; cbn; lia.
Qed.

Lemma internal_is_scaled_external_at_latch_witness :
  _i32Position (ticks (RotaryEncoder_new 2 3 FOUR3 0 0)
                  (up_cycle_from_3 (1, 2, 3, 4) ++ up_cycle_from_3 (5, 6, 7, 8)))
  = 4 * _i32PositionExt
          (ticks (RotaryEncoder_new 2 3 FOUR3 0 0)
             (up_cycle_from_3 (1, 2, 3, 4) ++ up_cycle_from_3 (5, 6, 7, 8))).
Proof.
  refine (proj1 (proj2 (internal_is_scaled_external_at_latch 2 3 FOUR3 0 0
                          (up_cycle_from_3 (1, 2, 3, 4) ++ up_cycle_from_3 (5, 6, 7, 8))
                          _ _)) _); reflexivity.
Defined.

(** ** setPosition composed with itself and with the current position *)

Lemma land_shifted_ones (x s : Z) :
  0 <= s < 32 -> Z.land (to_int32 (Z.shiftl x s)) (2 ^ s - 1) = 0.
Proof.
  intros Hs. apply Z.bits_inj'. intros i Hi. rewrite Z.bits_0.
  destruct (Z.lt_ge_cases i s) as [Hlt|Hge].
  - rewrite land_ones_testbit_low, to_int32_testbit, Z.shiftl_spec_low by lia.
    reflexivity.
  - apply land_ones_testbit_high. lia.
Qed.

Lemma setPosition_Mode (e : RotaryEncoder) (newPosition : Z) :
  _eMode (setPosition e newPosition) = _eMode e.
Proof. rewrite setPosition_eq. reflexivity. Qed.

(** X5.  A second [setPosition] overrides the first completely: the
    object after [setPosition n] followed by [setPosition m] is the object
    after [setPosition m] alone, for all arguments, because the first call
    leaves the low [shift] bits of the internal position as they were. *)
Theorem setPosition_overrides (e : RotaryEncoder) (n m : Z) :
  setPosition (setPosition e n) m = setPosition e m.
Proof.
  rewrite (setPosition_eq (setPosition e n) m), setPosition_Mode.
  rewrite (setPosition_eq e m).
  assert (Hs : 0 <= shift_of (_eMode e) < 32)
    by (destruct (_eMode e); cbn; lia).
  assert (Hlow : Z.land (_i32Position (setPosition e n))
                        (2 ^ shift_of (_eMode e) - 1)
                 = Z.land (_i32Position e) (2 ^ shift_of (_eMode e) - 1)).
  { rewrite setPosition_eq.
    cbn [_i32Position set_PositionExtPrev set_PositionExt set_Position].
    rewrite Z.land_lor_distr_l, land_shifted_ones by exact Hs.
    rewrite Z.lor_0_l, <- Z.land_assoc, Z.land_diag. reflexivity. }
  rewrite Hlow. rewrite setPosition_eq. reflexivity.
Qed.

(** X6.  [setPosition] with the position that [getPosition] returns does
    not move the decoder when the external position is in step with the
    internal one: the internal position, the external position, the old
    state and the time stamps stay as they are, and only the previous
    external position (the reference of [getDirection]) is set to the
    external position. *)
Theorem setPosition_current_position (e : RotaryEncoder) :
  is_int32 (_i32Position e) ->
  synced e ->
  setPosition e (fst (getPosition e)) = set_PositionExtPrev e (_i32PositionExt e).
Proof.
  intros Hp Hs. cbn [getPosition fst].
  assert (Hc : shift_of (_eMode e) = 1 \/ shift_of (_eMode e) = 2)
    by apply shift_of_cases.
  assert (Hpos : Z.lor (to_int32 (Z.shiftl (_i32PositionExt e) (shift_of (_eMode e))))
                       (Z.land (_i32Position e) (2 ^ shift_of (_eMode e) - 1))
                 = _i32Position e).
  { rewrite Hs. set (s := shift_of (_eMode e)) in *. set (p := _i32Position e) in *.
    rewrite Z.shiftl_mul_pow2, Z.shiftr_div_pow2 by lia.
    assert (H2 : 0 < 2 ^ s) by (apply Z.pow_pos_nonneg; lia).
    pose proof (Z.div_mod p (2 ^ s) ltac:(lia)) as Hdm.
    pose proof (Z.mod_pos_bound p (2 ^ s) H2) as Hmb.
    rewrite to_int32_id.
    - rewrite lor_shifted_low by lia. lia.
    - unfold is_int32 in *. destruct Hc as [Hc|Hc]; rewrite Hc in *;
        change (2 ^ 1) with 2 in *; change (2 ^ 2) with 4 in *; lia. }
  rewrite setPosition_eq, Hpos.
  destruct e as [p1 p2 mode old pos ext prev time timePrev]. reflexivity.
Qed.

Lemma setPosition_current_position_witness :
  setPosition at_latch_0 (fst (getPosition at_latch_0))
  = set_PositionExtPrev at_latch_0 (_i32PositionExt at_latch_0).
Proof.
  apply (setPosition_current_position at_latch_0).
  - vm_compute. split; [discriminate | reflexivity].
  - reflexivity.
Defined.

(** ** setPosition, a detent, and the direction *)

Lemma getDirection_fst (e : RotaryEncoder) :
  fst (getDirection e)
  = if _i32PositionExtPrev e >? _i32PositionExt e then COUNTERCLOCKWISE
    else if _i32PositionExtPrev e <? _i32PositionExt e then CLOCKWISE
    else NOROTATION.
Proof.
  unfold getDirection. destruct (_ >? _); [|destruct (_ <? _)]; reflexivity.
Qed.

Lemma ticks_PositionExtPrev (xs : list Sample) (e : RotaryEncoder) :
  _i32PositionExtPrev (ticks e xs) = _i32PositionExtPrev e.
Proof.
  revert e. induction xs as [|[[sig1 sig2] millis] xs IH]; intros e.
  - reflexivity.
  - rewrite ticks_cons, IH. apply tick_PositionExtPrev.
Qed.

(** X7.  In the mode that latches at raw state 0 and in raw state 0,
    [setPosition n] followed by one detent (four single-bit steps ending
    in raw state 0) makes [getPosition] return [n + 1] and [getDirection]
    return CLOCKWISE when the four table entries sum to +4, and [n - 1]
    and COUNTERCLOCKWISE when they sum to -4, whatever the internal and
    external positions were before [setPosition]; [n] is any position
    with [n - 1] and [n + 1] between -2^29 and 2^29 - 1. *)
Theorem setPosition_then_detent
    (e : RotaryEncoder) (n : Z) (a1 a2 b1 b2 c1 c2 d1 d2 : PinLevel)
    (m1 m2 m3 m4 : Z) :
  let s1 := readState a1 a2 in
  let s2 := readState b1 b2 in
  let s3 := readState c1 c2 in
  let s4 := readState d1 d2 in
  let total := table_delta 0 s1 + table_delta s1 s2
               + table_delta s2 s3 + table_delta s3 s4 in
  let e' := ticks (setPosition e n)
              [ (a1, a2, m1); (b1, b2, m2); (c1, c2, m3); (d1, d2, m4) ] in
  _eMode e = FOUR0 ->
  _i08OldState e = 0 ->
  - 2 ^ 29 < n < 2 ^ 29 - 1 ->
  single_bit_step 0 s1 = true ->
  single_bit_step s1 s2 = true ->
  single_bit_step s2 s3 = true ->
  single_bit_step s3 s4 = true ->
  s4 = 0 ->
  (total = 4 ->
   fst (getPosition e') = n + 1 /\ fst (getDirection e') = CLOCKWISE)
  /\ (total = -4 ->
      fst (getPosition e') = n - 1 /\ fst (getDirection e') = COUNTERCLOCKWISE).
Proof.
  intros s1 s2 s3 s4 total e' Hmode Hold Hn H1 H2 H3 H4 Hend.
  assert (Hmode' : _eMode (setPosition e n) = FOUR0)
    by (rewrite setPosition_Mode; exact Hmode).
  assert (Hold' : _i08OldState (setPosition e n) = 0)
    by (rewrite setPosition_eq; exact Hold).
  destruct (four_steps_FOUR0_positions (setPosition e n)
              a1 a2 b1 b2 c1 c2 d1 d2 m1 m2 m3 m4
              Hmode' Hold' H1 H2 H3 H4 Hend) as (Hp & Hx & _).
  fold s1 s2 s3 s4 total e' in Hp, Hx.
  assert (Hfit : fits_shifted (_eMode e) n).
  { unfold fits_shifted. rewrite Hmode. cbn [shift_of].
    change (2 ^ (31 - 2)) with (2 ^ 29). lia. }
  rewrite (setPosition_Position_fits e n Hfit), Hmode in Hp. cbn [shift_of] in Hp.
  change (2 ^ 2) with 4 in Hp.
  pose proof (Z.mod_pos_bound (_i32Position e) 4 ltac:(lia)) as Hlow.
  assert (Hprev : _i32PositionExtPrev e' = n).
  { unfold e'. rewrite ticks_PositionExtPrev, setPosition_eq. reflexivity. }
  assert (Hext : forall k, total = 4 * k -> -1 <= k <= 1 ->
                   _i32PositionExt e' = n + k).
  { intros k Ht Hk. rewrite Hx, Hp, Ht.
    rewrite to_int32_id by (unfold is_int32; lia).
    replace (n * 4 + _i32Position e mod 4 + 4 * k)
      with (_i32Position e mod 4 + 4 * (n + k)) by lia.
    rewrite shiftr2_add4, Z.shiftr_div_pow2 by lia.
    change (2 ^ 2) with 4. rewrite Z.div_small by lia. lia. }
  split; intros Ht; rewrite getDirection_fst, Hprev; cbn [getPosition fst].
  - rewrite (Hext 1) by lia. split; [reflexivity|].
    destruct (Z.gtb_spec n (n + 1)); [lia|].
    destruct (Z.ltb_spec n (n + 1)); [reflexivity | lia].
  - rewrite (Hext (-1)) by lia. split; [lia|].
    destruct (Z.gtb_spec n (n + -1)); [reflexivity | lia].
Qed.

Lemma setPosition_then_detent_witness :
  fst (getPosition (ticks (setPosition at_latch_0 5) (up_cycle_from_0 3))) = 5 + 1
  /\ fst (getDirection (ticks (setPosition at_latch_0 5) (up_cycle_from_0 3)))
     = CLOCKWISE.
Proof.
  refine (proj1 (setPosition_then_detent at_latch_0 5
                   LOW HIGH HIGH HIGH HIGH LOW LOW LOW 3 3 3 3
                   _ _ _ _ _ _ _ _) _);
    first [ reflexivity | lia ].
Defined.

(** ** Counting detents from the rest state *)

Lemma last_state_app (xs ys : list Sample) (prevState : Z) :
  last_state prevState (xs ++ ys) = last_state (last_state prevState xs) ys.
Proof.
  revert prevState. induction xs as [|[[sig1 sig2] millis] xs IH]; intros p.
  - reflexivity.
  - cbn [app last_state]. apply IH.
Qed.

Lemma path_delta_app (xs ys : list Sample) (prevState : Z) :
  path_delta prevState (xs ++ ys)
  = path_delta prevState xs + path_delta (last_state prevState xs) ys.
Proof.
  revert prevState. induction xs as [|[[sig1 sig2] millis] xs IH]; intros p.
  - reflexivity.
  - cbn [app path_delta last_state]. rewrite IH. lia.
Qed.

Lemma quadrature_run_app (xs ys : list Sample) (prevState : Z) :
  quadrature_run prevState (xs ++ ys)
  = quadrature_run prevState xs && quadrature_run (last_state prevState xs) ys.
Proof.
  revert prevState. induction xs as [|[[sig1 sig2] millis] xs IH]; intros p.
  - reflexivity.
  - cbn [app quadrature_run last_state]. rewrite IH. apply andb_assoc.
Qed.

Lemma detent_from_3_facts (d : bool * (Z * Z * Z * Z)) :
  last_state 3 (detent_from_3 d) = 3
  /\ quadrature_run 3 (detent_from_3 d) = true
  /\ path_delta 3 (detent_from_3 d) = 4 * (if fst d then 1 else -1).
Proof.
  destruct d as [[|] [[[m1 m2] m3] m4]]; repeat split.
Qed.

Lemma detents_from_3_facts (ds : list (bool * (Z * Z * Z * Z))) :
  last_state 3 (flat_map detent_from_3 ds) = 3
  /\ quadrature_run 3 (flat_map detent_from_3 ds) = true
  /\ path_delta 3 (flat_map detent_from_3 ds) = 4 * net_detents ds.
Proof.
  induction ds as [|d ds (IHl & IHq & IHp)].
  - repeat split.
  - destruct (detent_from_3_facts d) as (Hl & Hq & Hp).
    cbn [flat_map net_detents].
    rewrite last_state_app, quadrature_run_app, path_delta_app, Hl, Hq, Hp, IHl,
      IHq, IHp.
    repeat split. lia.
Qed.

(** X8.  From a freshly constructed object (rest state 3), after any
    number of detents turned up and down in any order, each one a full
    cycle of four single-bit steps back to state 3, [getPosition] returns
    the number of detents up minus the number down in the mode that
    latches at 3, and twice that in the two-step mode, provided four times
    that number is an [int32_t]; [getDirection] then returns CLOCKWISE,
    COUNTERCLOCKWISE or NOROTATION as the net count is positive, negative
    or zero. *)
Theorem detents_are_counted
    (u08Pin1 u08Pin2 : Z) (mode : LatchMode) (time0 timePrev0 : Z)
    (ds : list (bool * (Z * Z * Z * Z))) :
  let e := ticks (RotaryEncoder_new u08Pin1 u08Pin2 mode time0 timePrev0)
             (flat_map detent_from_3 ds) in
  mode <> FOUR0 ->
  - 2 ^ 29 <= net_detents ds < 2 ^ 29 ->
  fst (getPosition e) = match mode with TWO03 => 2 * net_detents ds | _ => net_detents ds end
  /\ (0 < net_detents ds -> fst (getDirection e) = CLOCKWISE)
  /\ (net_detents ds < 0 -> fst (getDirection e) = COUNTERCLOCKWISE)
  /\ (net_detents ds = 0 -> fst (getDirection e) = NOROTATION).
Proof.
  intros e Hmode Hnet.
  set (e0 := RotaryEncoder_new u08Pin1 u08Pin2 mode time0 timePrev0) in *.
  destruct (detents_from_3_facts ds) as (Hl & Hq & Hp).
  destruct (ticks_path (flat_map detent_from_3 ds) e0) as (Ho & Hpos).
  { cbn; lia. }
  { unfold is_int32; cbn; lia. }
  fold e in Ho, Hpos.
  change (_i08OldState e0) with 3 in Ho, Hpos.
  change (_i32Position e0) with 0 in Hpos.
  rewrite Hl in Ho. rewrite Hp, Z.add_0_l in Hpos.
  rewrite to_int32_id in Hpos by (unfold is_int32; lia).
  assert (He : in_step e) by (apply in_step_ticks; [exact Hq | apply in_step_new]).
  assert (Hm : _eMode e = mode) by (unfold e; apply ticks_Mode).
  assert (Hlc : latch_condition (_eMode e) (_i08OldState e) = true).
  { rewrite Hm, Ho. destruct mode; [reflexivity | contradiction | reflexivity]. }
  pose proof (in_step_latched e He Hlc) as Hs.
  unfold synced in Hs. rewrite Hm, Hpos in Hs.
  assert (Hext : _i32PositionExt e
                 = match mode with
                   | TWO03 => 2 * net_detents ds
                   | _ => net_detents ds
                   end).
  { rewrite Hs. destruct mode; [|contradiction|]; cbn [shift_of].
    - rewrite <- (Z.add_0_l (4 * _)), shiftr2_add4. reflexivity.
    - rewrite Z.shiftr_div_pow2 by lia. change (2 ^ 1) with 2.
      replace (4 * net_detents ds) with (2 * net_detents ds * 2) by lia.
      apply Z.div_mul. lia. }
  assert (Hprev : _i32PositionExtPrev e = 0)
    by (unfold e; rewrite ticks_PositionExtPrev; reflexivity).
  split; [exact Hext|].
  rewrite getDirection_fst, Hprev, Hext.
  repeat split; intros Hsign;
    destruct mode; try contradiction;
    repeat match goal with
           | |- context [?a >? ?b] => destruct (Z.gtb_spec a b); try lia
           | |- context [?a <? ?b] => destruct (Z.ltb_spec a b); try lia
           end; reflexivity.
Qed.

Lemma detents_are_counted_witness :
  fst (getPosition
         (ticks (RotaryEncoder_new 2 3 FOUR3 0 0)
            (flat_map detent_from_3
               [ (true, (1, 2, 3, 4)); (true, (5, 6, 7, 8));
                 (false, (9, 10, 11, 12)); (true, (13, 14, 15, 16)) ]))) = 2.
Proof.
  refine (proj1 (detents_are_counted 2 3 FOUR3 0 0
                   [ (true, (1, 2, 3, 4)); (true, (5, 6, 7, 8));
                     (false, (9, 10, 11, 12)); (true, (13, 14, 15, 16)) ] _ _)).
  - discriminate.
  - cbn. lia.
Defined.

(** ** Time stamps along a run *)

(** X9.  The two time stamps are the clock values of the last two calls of
    [tick] that latched: after any run, (last, prior) is what results from
    pushing the run's latch times, in order, onto the pair the run started
    with.  Calls that do not latch, whether the state changed or not,
    leave both stamps and so the result of [getMillisBetweenRotations]
    as they were. *)
Theorem ticks_time_stamps (xs : list Sample) (e : RotaryEncoder) :
  (_u32PositionExtTime (ticks e xs), _u32PositionExtTimePrev (ticks e xs))
  = fold_left push_time (latch_times e xs)
      (_u32PositionExtTime e, _u32PositionExtTimePrev e)
  /\ (latch_times e xs = [] ->
      fst (getMillisBetweenRotations (ticks e xs))
      = fst (getMillisBetweenRotations e)).
Proof.
  assert (H : (_u32PositionExtTime (ticks e xs), _u32PositionExtTimePrev (ticks e xs))
              = fold_left push_time (latch_times e xs)
                  (_u32PositionExtTime e, _u32PositionExtTimePrev e)).
  { revert e. induction xs as [|[[sig1 sig2] millis] xs IH]; intros e.
    - reflexivity.
    - rewrite ticks_cons. cbn [latch_times]. rewrite fold_left_app, IH.
      f_equal.
      destruct (Z.eqb_spec (_i08OldState e) (readState sig1 sig2)) as [Heq|Hne].
      + rewrite tick_unchanged by (symmetry; exact Heq). reflexivity.
      + assert (Hc : readState sig1 sig2 <> _i08OldState e)
          by (intros Hx; apply Hne; symmetry; exact Hx).
        rewrite tick_PositionExtTime, tick_PositionExtTimePrev by exact Hc.
        cbn [negb andb].
        destruct (latch_condition _ _); reflexivity. }
  split; [exact H|].
  intros Hnil. rewrite Hnil in H. cbn [fold_left] in H.
  injection H as Ht Hp. unfold getMillisBetweenRotations. cbn [fst].
  rewrite Ht, Hp. reflexivity.
Qed.

Lemma ticks_time_stamps_witness :
  fst (getMillisBetweenRotations
         (ticks (bounce_3_1 100 150) [ (LOW, HIGH, 170); (LOW, LOW, 180) ]))
  = fst (getMillisBetweenRotations (bounce_3_1 100 150)).
Proof.
  refine (proj2 (ticks_time_stamps [ (LOW, HIGH, 170); (LOW, LOW, 180) ]
                   (bounce_3_1 100 150)) _).
  reflexivity.
Defined.

(** ** What no call changes *)

Lemma call_frame (e : RotaryEncoder) (c : Call) :
  _eMode (call e c) = _eMode e
  /\ _u08Pin1 (call e c) = _u08Pin1 e
  /\ _u08Pin2 (call e c) = _u08Pin2 e
  /\ (keeps_reference c = true ->
      _i32PositionExtPrev (call e c) = _i32PositionExtPrev e).
Proof.
  destruct c as [sig1 sig2 millis|newPosition| | | |fmt millis]; cbn [call].
  - rewrite tick_Mode, tick_Pin1, tick_Pin2, tick_PositionExtPrev. repeat split.
  - rewrite setPosition_eq. repeat split. discriminate.
  - repeat split.
  - unfold getDirection. destruct (_ >? _); [|destruct (_ <? _)];
      repeat split; discriminate.
  - repeat split.
  - repeat split.
Qed.

(** X10.  No sequence of calls changes the latch mode or the two pin
    numbers of an object, and only [setPosition] and [getDirection] change
    the previous external position: [tick] never consumes the rotation
    that [getDirection] is to report, however often it is called, and
    neither do the getters. *)
Theorem calls_frame (cs : list Call) (e : RotaryEncoder) :
  _eMode (calls e cs) = _eMode e
  /\ _u08Pin1 (calls e cs) = _u08Pin1 e
  /\ _u08Pin2 (calls e cs) = _u08Pin2 e
  /\ (forallb keeps_reference cs = true ->
      _i32PositionExtPrev (calls e cs) = _i32PositionExtPrev e).
Proof.
  revert e. induction cs as [|c cs IH]; intros e.
  - repeat split.
  - unfold calls. cbn [fold_left forallb]. fold (calls (call e c) cs).
    destruct (IH (call e c)) as (Hm & H1 & H2 & Hr).
    destruct (call_frame e c) as (Gm & G1 & G2 & Gr).
    rewrite Hm, H1, H2, Gm, G1, G2. repeat split.
    intros Hk. apply andb_prop in Hk. destruct Hk as [Hc Hcs].
    rewrite (Hr Hcs). apply Gr. exact Hc.
Qed.

Lemma calls_frame_witness :
  _i32PositionExtPrev
    (calls at_latch_0
       [ CallTick LOW HIGH 3; CallGetPosition; CallTick HIGH HIGH 4;
         CallGetRPM Binary64 5; CallTick HIGH LOW 6; CallTick LOW LOW 7;
         CallGetMillisBetweenRotations ])
  = _i32PositionExtPrev at_latch_0.
Proof.
  refine (proj2 (proj2 (proj2
            (calls_frame
               [ CallTick LOW HIGH 3; CallGetPosition; CallTick HIGH HIGH 4;
                 CallGetRPM Binary64 5; CallTick HIGH LOW 6; CallTick LOW LOW 7;
                 CallGetMillisBetweenRotations ] at_latch_0))) _).
  reflexivity.
Defined.

(** ** getRPM away from zero *)

(** The returned value as a function of [t]. *)
Lemma getRPM_of_t (fmt : DoubleFormat) (e : RotaryEncoder) (millis : Z) :
  getRPM fmt e millis
  = (uint32_of_double
       (SFdiv (double_prec fmt) (double_emax fmt) (double_60000 fmt)
          (float_of_uint32 (to_uint32 (getRPM_t e millis * 20)))), e).
Proof. reflexivity. Qed.

Lemma rpm_table (fmt : DoubleFormat) :
  forallb
    (fun n =>
       match uint32_of_double
               (SFdiv (double_prec fmt) (double_emax fmt) (double_60000 fmt)
                  (float_of_uint32 (to_uint32 (Z.of_nat n * 20))))
       with
       | Some v => v =? 3000 / Z.of_nat n
       | None => false
       end)
    (seq 1 3000) = true.
Proof. destruct fmt; vm_compute; reflexivity. Qed.

(** X11.  For [t] from 1 to 3000 milliseconds, [getRPM] returns the
    integer quotient 3000 / t (60000 / (t * 20) rounded down): the
    floating-point division and the conversion to [uint32_t] lose nothing,
    whether [double] has 32 or 64 bits.  It returns 3000 for t = 1 and 1
    for t from 1501 to 3000. *)
Theorem getRPM_is_integer_quotient
    (fmt : DoubleFormat) (e : RotaryEncoder) (millis : Z) :
  1 <= getRPM_t e millis <= 3000 ->
  getRPM fmt e millis = (Some (3000 / getRPM_t e millis), e)
  /\ 1 <= 3000 / getRPM_t e millis <= 3000.
Proof.
  intros Ht. rewrite getRPM_of_t.
  set (t := getRPM_t e millis) in *.
  pose proof (rpm_table fmt) as Htab.
  rewrite forallb_forall in Htab.
  specialize (Htab (Z.to_nat t)).
  rewrite Z2Nat.id in Htab by lia.
  assert (Hin : In (Z.to_nat t) (seq 1 3000)) by (apply in_seq; lia).
  specialize (Htab Hin).
  destruct (uint32_of_double _) as [v|]; [|discriminate Htab].
  apply Z.eqb_eq in Htab. subst v. split; [reflexivity|].
  split.
  - apply Z.div_le_lower_bound; lia.
  - apply Z.div_le_upper_bound; lia.
Qed.

Lemma getRPM_is_integer_quotient_witness :
  getRPM_t (bounce_3_1 100 250) 260 = 150
  /\ getRPM Binary32 (bounce_3_1 100 250) 260 = (Some 20, bounce_3_1 100 250).
Proof.
  split; [reflexivity|].
  refine (proj1 (getRPM_is_integer_quotient Binary32 (bounce_3_1 100 250) 260 _)).
  vm_compute. split; discriminate.
Defined.

(** X12.  The product [t * 20] is computed in 32 bits, so it is 0 not
    only for t = 0 but for every multiple of 2^30 milliseconds (about 12.4
    days): there too [getRPM] divides 60000.0 by 0.0, gets plus infinity
    and converts it to [uint32_t], for which no result is defined. *)
Theorem getRPM_product_wraps
    (fmt : DoubleFormat) (e : RotaryEncoder) (millis : Z) :
  getRPM_t e millis mod 2 ^ 30 = 0 ->
  to_uint32 (getRPM_t e millis * 20) = 0
  /\ getRPM_quotient fmt e millis = S754_infinity false
  /\ getRPM fmt e millis = (None, e).
Proof.
  intros Ht.
  assert (H0 : to_uint32 (getRPM_t e millis * 20) = 0).
  { apply Z.mod_divide in Ht; [|lia]. destruct Ht as [k Hk].
    unfold to_uint32. rewrite Hk.
    replace (k * 2 ^ 30 * 20) with (5 * k * 2 ^ 32) by lia.
    apply Z_mod_mult. }
  split; [exact H0|].
  unfold getRPM, getRPM_quotient. rewrite H0.
  destruct fmt; repeat split.
Qed.

Lemma getRPM_product_wraps_witness :
  getRPM_t (RotaryEncoder_new 2 3 FOUR0 0 0) 1073741824 = 1073741824
  /\ getRPM Binary64 (RotaryEncoder_new 2 3 FOUR0 0 0) 1073741824
     = (None, RotaryEncoder_new 2 3 FOUR0 0 0).
Proof.
  split; [reflexivity|].
  refine (proj2 (proj2 (getRPM_product_wraps Binary64
                          (RotaryEncoder_new 2 3 FOUR0 0 0) 1073741824 _))).
  reflexivity.
Defined.
